(** * The contest session engine of contest-bitnp

    A shallow embedding of [quiz/models.py] and
    [quiz/templatetags/current_page.py], with the properties of the
    natural-language specification stated and proved over it.

    Conventions.
    - A Django model instance is a record.  A foreign key field holds the
      related instance, which is what attribute access on the instance
      returns ([answer.question], [answer.choice], [draft.student]); rows
      are matched by primary key, as the ORM does.
    - A primary key is an integer; [None] is the key of an instance that has
      not been saved.
    - An instant ([datetime]) is an integer count of clock ticks.
    - The database is a record of tables; a table is the list of its rows.
    - Code that reads or writes the database runs in the state monad [ORM].
    - [constants.py] is not part of the sources: the namespace object
      [constants] it exports is a parameter, a record of the values the code
      reads from it.
    - [views.py] is not part of the sources either: the operations it holds
      are modelled from the specification, and marked as such. *)

From stdpp Require Import base option list gmap strings pretty.
From Stdlib Require Import ZArith Lia.

Open Scope Z_scope.

(** ** Python's [sum] *)

Definition sum (l : list Z) : Z := foldl Z.add 0 l.

(** ** Model instances *)

Definition pk := Z.
Definition datetime := Z.

(** [Question.Category] is a one-character text column: ["R"], ["B"]. *)
Definition Category := string.
Definition RADIO : Category := "R".
Definition BINARY : Category := "B".

Record Question := {
  q_pk : pk;
  q_content : string;
  q_category : Category;
}.

Record Choice := {
  c_pk : pk;
  c_content : string;
  c_correct : bool;
  c_question : Question;
}.

(** The primary key of a [Student] is its [user]. *)
Record Student := {
  s_user : pk;
  s_name : string;
}.

Record Response := {
  r_pk : option pk;
  r_submit_at : datetime;
  r_student : Student;
}.

Record Answer := {
  a_pk : option pk;
  a_response : Response;
  a_question : Question;
  a_choice : option Choice;
}.

Record DraftResponse := {
  d_pk : pk;
  d_student : Student;
  d_deadline : datetime;
}.

Record DraftAnswer := {
  da_pk : option pk;
  da_response : DraftResponse;
  da_question : Question;
  da_choice : option Choice;
}.

#[global] Instance Question_eq_dec : EqDecision Question.
Proof. solve_decision. Defined.
#[global] Instance Choice_eq_dec : EqDecision Choice.
Proof. solve_decision. Defined.
#[global] Instance Student_eq_dec : EqDecision Student.
Proof. solve_decision. Defined.
#[global] Instance Response_eq_dec : EqDecision Response.
Proof. solve_decision. Defined.
#[global] Instance Answer_eq_dec : EqDecision Answer.
Proof. solve_decision. Defined.
#[global] Instance DraftResponse_eq_dec : EqDecision DraftResponse.
Proof. solve_decision. Defined.
#[global] Instance DraftAnswer_eq_dec : EqDecision DraftAnswer.
Proof. solve_decision. Defined.

(** ** The database *)

Record DB := {
  questions : list Question;
  choices : list Choice;
  students : list Student;
  responses : list Response;
  answers : list Answer;
  draft_responses : list DraftResponse;
  draft_answers : list DraftAnswer;
}.

(** ** The monad of database code *)

Definition ORM (A : Type) : Type := DB -> A * DB.

Definition ret {A} (a : A) : ORM A := fun db => (a, db).

Definition bind {A B} (m : ORM A) (k : A -> ORM B) : ORM B :=
  fun db => let '(a, db') := m db in k a db'.

(** A query reads the database and leaves it as it is. *)
Definition query {A} (f : DB -> A) : ORM A := fun db => (f db, db).

#[global] Instance ORM_ret : MRet ORM := @ret.
#[global] Instance ORM_bind : MBind ORM := fun A B k m => bind m k.

(** ** quiz/constants.py *)

Record PageMeta := {
  pm_title : string;
}.

(** The namespace [constants].  [SCORE] and [N_QUESTIONS_PER_RESPONSE] are
    dicts read through [items()]: the list of their items, in order. *)
Record ConstantsNamespace := {
  ROUTES : gmap string PageMeta;
  MAX_TRIES : Z;
  SCORE : list (Category * Z);
  N_QUESTIONS_PER_RESPONSE : list (Category * nat);
  DEADLINE_DURATION : Z;
}.

(** ** quiz/models.py *)

(** [self.answer_set] of a [Response]: the answers whose [response] is
    [self].  For an unsaved response the model gives no answers, as Django
    before 4.1 does; Django 4.1 and later raises [ValueError] there.  For a
    stored response it is the relation itself. *)
Definition Response_answer_set (self : Response) (db : DB) : list Answer :=
  match r_pk self with
  | Some k => filter (λ a, r_pk (a_response a) = Some k) (answers db)
  | None => []
  end.

(** [self.answer_set] of a [DraftResponse] (the [related_name] of
    [DraftAnswer.response]). *)
Definition DraftResponse_answer_set (self : DraftResponse) (db : DB)
  : list DraftAnswer :=
  filter (λ a, d_pk (da_response a) = d_pk self) (draft_answers db).

(** [self.response_set] of a [Student]. *)
Definition Student_response_set (self : Student) (db : DB) : list Response :=
  filter (λ r, s_user (r_student r) = s_user self) (responses db).

(** The lookup [choice__correct=True]: the join drops an answer whose
    [choice] is null. *)
Definition choice__correct (a : Answer) : bool :=
  match a_choice a with
  | Some c => c_correct c
  | None => false
  end.

(** [Student.n_left_tries] *)
Definition Student_n_left_tries (constants : ConstantsNamespace)
    (self : Student) (db : DB) : Z :=
  MAX_TRIES constants - Z.of_nat (length (Student_response_set self db)).

(** [Response.score] *)
Definition Response_score (constants : ConstantsNamespace)
    (self : Response) (db : DB) : Z :=
  sum ((λ '(category, score),
          score
          * Z.of_nat (length (filter (λ a, q_category (a_question a) = category
                                           ∧ choice__correct a = true)
                                     (Response_answer_set self db))))
       <$> SCORE constants).

(** [Student.final_score] *)
Definition Student_final_score (constants : ConstantsNamespace)
    (self : Student) (db : DB) : Z :=
  foldr Z.max 0 ((λ r, Response_score constants r db)
                 <$> Student_response_set self db).

(** [DraftAnswer.finalize] *)
Definition DraftAnswer_finalize (self : DraftAnswer) (response : Response)
  : Answer :=
  {| a_pk := None;
     a_question := da_question self;
     a_choice := da_choice self;
     a_response := response |}.

(** [DraftResponse.finalize] *)
Definition DraftResponse_finalize (self : DraftResponse) (submit_at : datetime)
  : ORM (Response * list Answer) :=
  let response :=
    {| r_pk := None; r_submit_at := submit_at; r_student := d_student self |} in
  drafts ← query (DraftResponse_answer_set self);
  mret (response, (λ a, DraftAnswer_finalize a response) <$> drafts).

(** [DraftResponse.outdated]; [now] is the value of [timezone.now()]. *)
Definition DraftResponse_outdated (now : datetime) (self : DraftResponse)
  : bool :=
  now >? d_deadline self.

(** ** quiz/templatetags/current_page.py *)

Record HttpRequest := {
  path_info : string;
}.

Record HTTPStatus := {
  st_value : Z;
  st_phrase : string;
}.

(** The template context, read at the three keys the tag looks up, each with
    the type the code annotates it with; [None] is an absent key. *)
Record Context := {
  ctx_request : option HttpRequest;
  ctx_constants : option ConstantsNamespace;
  ctx_response_status : option HTTPStatus;
}.

Inductive Exception :=
  | KeyError (key : string).

(** [current_page_title].  [resolve] is [django.urls.resolve] followed by
    [.view_name]; [None] stands for [Resolver404]. *)
Definition current_page_title (resolve : string -> option string)
    (context : Context) (default : string) : Exception + string :=
  match ctx_request context with
  | None => inl (KeyError "request")
  | Some request =>
      let fallthrough :=
        match ctx_response_status context with
        | Some status => inr (pretty (st_value status) +:+ " " +:+ st_phrase status)
        | None => inr default
        end in
      match ctx_constants context with
      | Some constants =>
          match resolve (path_info request) with
          | None => fallthrough
          | Some view_name =>
              match ROUTES constants !! view_name with
              | Some page => inr (pm_title page)
              | None => fallthrough
              end
          end
      | None => fallthrough
      end
  end.

(** ** Writes to the database

    The Django ORM calls that the operations of [views.py] make.  Each is one
    step of the [ORM] monad. *)

Definition set_responses (v : list Response) (db : DB) : DB :=
  {| questions := questions db; choices := choices db; students := students db;
     responses := v; answers := answers db;
     draft_responses := draft_responses db; draft_answers := draft_answers db |}.

Definition set_answers (v : list Answer) (db : DB) : DB :=
  {| questions := questions db; choices := choices db; students := students db;
     responses := responses db; answers := v;
     draft_responses := draft_responses db; draft_answers := draft_answers db |}.

Definition set_drafts (ds : list DraftResponse) (das : list DraftAnswer)
    (db : DB) : DB :=
  {| questions := questions db; choices := choices db; students := students db;
     responses := responses db; answers := answers db;
     draft_responses := ds; draft_answers := das |}.

(** The key an auto-incremented column gives the next row. *)
Definition next_pk (used : list pk) : pk := 1 + foldr Z.max 0 used.

(** [response.save()]: the instance gets its key and is stored. *)
Definition Response_save (response : Response) : ORM Response := fun db =>
  let saved :=
    {| r_pk := Some (next_pk (omap r_pk (responses db)));
       r_submit_at := r_submit_at response;
       r_student := r_student response |} in
  (saved, set_responses (responses db ++ [saved]) db).

(** [Answer.objects.bulk_create(answers)], for answers of the instance
    [response]: saving [response] gave that one instance its key, so the
    answers, which refer to it, are stored under the saved response. *)
Definition Answer_bulk_create (response : Response) (new : list Answer)
  : ORM unit := fun db =>
  let base := next_pk (omap a_pk (answers db)) in
  let rows :=
    imap (λ i a, {| a_pk := Some (base + Z.of_nat i);
                    a_response := response;
                    a_question := a_question a;
                    a_choice := a_choice a |}) new in
  (tt, set_answers (answers db ++ rows) db).

(** [draft.delete()]: the row goes, and with it ([on_delete=CASCADE]) its
    draft answers. *)
Definition DraftResponse_delete (draft : DraftResponse) : ORM unit := fun db =>
  (tt, set_drafts
         (filter (λ d, d_pk d ≠ d_pk draft) (draft_responses db))
         (filter (λ a, d_pk (da_response a) ≠ d_pk draft) (draft_answers db))
         db).

(** [DraftResponse.objects.create(...)] followed by the [bulk_create] of one
    [DraftAnswer] per question, none with a choice. *)
Definition DraftResponse_create (student : Student) (deadline : datetime)
    (qs : list Question) : ORM DraftResponse := fun db =>
  let draft :=
    {| d_pk := next_pk (d_pk <$> draft_responses db);
       d_student := student;
       d_deadline := deadline |} in
  let base := next_pk (omap da_pk (draft_answers db)) in
  let rows :=
    imap (λ i q, {| da_pk := Some (base + Z.of_nat i);
                    da_response := draft;
                    da_question := q;
                    da_choice := None |}) qs in
  (draft, set_drafts (draft_responses db ++ [draft]) (draft_answers db ++ rows) db).

(** Saving a new choice on the draft answer of [draft] to question [qid]. *)
Definition DraftAnswer_set_choice (draft : DraftResponse) (qid : pk)
    (choice : option Choice) : ORM unit := fun db =>
  (tt, set_drafts (draft_responses db)
         ((λ a, if decide (d_pk (da_response a) = d_pk draft
                           ∧ q_pk (da_question a) = qid)
                then {| da_pk := da_pk a; da_response := da_response a;
                        da_question := da_question a; da_choice := choice |}
                else a) <$> draft_answers db)
         db).

(** ** The operations of the core, modelled from the specification *)

(** Modelled from the spec: the errors of the taxonomy (section 7), which
    [views.py], missing, raises or returns. *)
Inductive Error :=
  | MalformedInputError
  | UnknownQuestionError
  | UnknownChoiceError
  | ExpiredError
  | TryLimitExceededError
  | InsufficientPopulationError
  | NoLiveDraftError.



(** *** QuestionSelector (section 4.1) *)

(** Sampling without replacement, as [random.sample(population, k)]: the
    random source is the list [rng] of the numbers it yields (0 once the list
    is used up); each pick removes the question picked.  [None] is the
    [ValueError] raised when the sample is larger than the population.  The
    rest of the random source is returned with the sample. *)
Fixpoint sample {A} (rng : list nat) (population : list A) (k : nat)
  : option (list A * list nat) :=
  match k with
  | O => Some ([], rng)
  | S k' =>
      let i := (hd 0 rng `mod` length population)%nat in
      match population !! i with
      | None => None
      | Some x =>
          match sample (tl rng) (delete i population) k' with
          | None => None
          | Some (rest, rng') => Some (x :: rest, rng')
          end
      end
  end.

(** Modelled from the spec: [draw] ([select_questions] of [views.py], which
    is missing).  For each category on its own, a sample of [quota] questions
    of that category from the bank; the samples are joined. *)
Fixpoint draw (quotas : list (Category * nat)) (bank : list Question)
    (rng : list nat) : Error + list Question :=
  match quotas with
  | [] => inr []
  | (category, quota) :: quotas' =>
      match sample rng (filter (λ q, q_category q = category) bank) quota with
      | None => inl InsufficientPopulationError
      | Some (picked, rng') =>
          match draw quotas' bank rng' with
          | inl e => inl e
          | inr others => inr (picked ++ others)
          end
      end
  end.

(** The questions of a category that the bank holds. *)
Definition available (category : Category) (bank : list Question) : nat :=
  length (filter (λ q, q_category q = category) bank).

(** The quota of a category: its entry in the mapping, 0 without one. *)
Definition quota_of (quotas : list (Category * nat)) (category : Category)
  : nat :=
  match list_find (λ p, p.1 = category) quotas with
  | Some (_, (_, n)) => n
  | None => O
  end.

(** *** TryLimiter (section 4.2) *)

(** [attemptsUsed] in the words of the specification: the count of the
    finalized responses the student owns.  In the code it is
    [self.response_set.count()], which [Student.n_left_tries] subtracts from
    [MAX_TRIES]. *)
Definition attemptsUsed (student : Student) (db : DB) : nat :=
  length (Student_response_set student db).

(** [canStart] in the words of the specification: true iff
    [attemptsUsed < MAX_TRIES]. *)
Definition canStart (constants : ConstantsNamespace) (student : Student)
    (db : DB) : bool :=
  bool_decide (Z.of_nat (attemptsUsed student db) < MAX_TRIES constants).

(** [student.draft_response], the reverse of the one-to-one field; [None]
    when the student has no draft. *)
Definition Student_draft_response (student : Student) (db : DB)
  : option DraftResponse :=
  head (filter (λ d, s_user (d_student d) = s_user student) (draft_responses db)).

(** *** FinalizationService (section 4.4) *)

(** Modelled from the spec: the finalization primitive.  It builds the
    response and its answers with [DraftResponse.finalize], stores them and
    deletes the draft, as one unit; against a draft that is gone it does
    nothing. *)
Definition FinalizationService_finalize (draft : DraftResponse)
    (submit_at : datetime) : ORM (option Response) :=
  present ← query (λ db, bool_decide (d_pk draft ∈ d_pk <$> draft_responses db));
  if present : bool then
    '(response, new) ← DraftResponse_finalize draft submit_at;
    response ← Response_save response;
    _ ← Answer_bulk_create response new;
    _ ← DraftResponse_delete draft;
    mret (Some response)
  else mret None.

(** Modelled from the spec: auto-finalization, the trigger on access.  A
    draft found with [now > deadline] is finalized, and the submission
    timestamp is its deadline.  A draft of a student whose tries are used up
    is void and is not finalized (section 4.2). *)
Definition auto_finalize (constants : ConstantsNamespace) (student : Student)
    (now : datetime) : ORM (option Response) :=
  found ← query (Student_draft_response student);
  ok ← query (canStart constants student);
  match found with
  | Some draft =>
      if DraftResponse_outdated now draft && ok
      then FinalizationService_finalize draft (d_deadline draft)
      else mret None
  | None => mret None
  end.

(** Modelled from the spec: explicit submission.  It needs a draft that
    exists and is not void, and is not gated by time; the submission
    timestamp is [now]. *)
Definition submit (constants : ConstantsNamespace) (student : Student)
    (now : datetime) : ORM (Error + Response) :=
  found ← query (Student_draft_response student);
  ok ← query (canStart constants student);
  match found with
  | None => mret (inl NoLiveDraftError)
  | Some draft =>
      if ok : bool then
        done ← FinalizationService_finalize draft now;
        match done with
        | Some response => mret (inr response)
        | None => mret (inl NoLiveDraftError)
        end
      else mret (inl TryLimitExceededError)
  end.

(** *** DraftSession (section 4.3) *)

(** Modelled from the spec: [start].  With tries left and no draft it draws
    the questions and stores a draft with the deadline
    [now + DEADLINE_DURATION] and one unanswered draft answer per question;
    with a live draft that has not expired it returns that draft; otherwise
    it fails.  A failed draw stores nothing. *)
Definition start (constants : ConstantsNamespace) (student : Student)
    (now : datetime) (rng : list nat) : ORM (Error + DraftResponse) :=
  ok ← query (canStart constants student);
  found ← query (Student_draft_response student);
  if ok : bool then
    match found with
    | Some draft =>
        if DraftResponse_outdated now draft
        then mret (inl TryLimitExceededError)
        else mret (inr draft)
    | None =>
        bank ← query questions;
        match draw (N_QUESTIONS_PER_RESPONSE constants) bank rng with
        | inl e => mret (inl e)
        | inr qs =>
            draft ← DraftResponse_create student
                      (now + DEADLINE_DURATION constants) qs;
            mret (inr draft)
        end
    end
  else mret (inl TryLimitExceededError).

(** Modelled from the spec: [get].  An expired draft is finalized first;
    then, with the tries used up, a draft that is left is void and is
    removed, and the call fails; otherwise the draft, if any, is returned. *)
Definition get (constants : ConstantsNamespace) (student : Student)
    (now : datetime) : ORM (Error + option DraftResponse) :=
  _ ← auto_finalize constants student now;
  ok ← query (canStart constants student);
  found ← query (Student_draft_response student);
  if ok : bool then mret (inr found)
  else
    _ ← match found with
        | Some draft => DraftResponse_delete draft
        | None => mret tt
        end;
    mret (inl TryLimitExceededError).

(** Modelled from the spec: an identifier as it reaches [update], of the
    wrong shape or a number (section 4.3). *)
Inductive QuestionId :=
  | MalformedQuestion
  | QuestionNo (qid : pk).

(** Modelled from the spec: the choice given to [update], of the wrong
    shape, the "no choice" sentinel, or a number (section 4.3). *)
Inductive ChoiceId :=
  | MalformedChoice
  | NoChoice
  | ChoiceNo (cid : pk).

(** Modelled from the spec: the checks and the write of [update], which run
    once the expiry of the draft has been looked after.  The draft must
    exist and not be expired, and must not be void; the identifiers must be
    well formed; the question must be one of the draft's; the choice, if
    any, must belong to that question.  Then the choice of that one draft
    answer is overwritten.  A failed check writes nothing. *)
Definition apply_update (constants : ConstantsNamespace) (student : Student)
    (now : datetime) (questionId : QuestionId) (choiceId : ChoiceId)
  : ORM (Error + unit) :=
  found ← query (Student_draft_response student);
  ok ← query (canStart constants student);
  match found with
  | None => mret (inl ExpiredError)
  | Some draft =>
      if DraftResponse_outdated now draft then mret (inl ExpiredError)
      else if negb ok then mret (inl TryLimitExceededError)
      else
        match questionId, choiceId with
        | MalformedQuestion, _ | _, MalformedChoice =>
            mret (inl MalformedInputError)
        | QuestionNo qid, _ =>
            drafts ← query (DraftResponse_answer_set draft);
            if bool_decide (qid ∈ (λ a, q_pk (da_question a)) <$> drafts) then
              match choiceId with
              | ChoiceNo cid =>
                  known ← query (λ db,
                    head (filter (λ c, c_pk c = cid ∧ q_pk (c_question c) = qid)
                                 (choices db)));
                  match known with
                  | Some c =>
                      _ ← DraftAnswer_set_choice draft qid (Some c);
                      mret (inr tt)
                  | None => mret (inl UnknownChoiceError)
                  end
              | _ =>
                  _ ← DraftAnswer_set_choice draft qid None;
                  mret (inr tt)
              end
            else mret (inl UnknownQuestionError)
        end
  end.

(** Modelled from the spec: [update].  As every operation that touches the
    draft of a student does (sections 4.3 and 4.4(b)), it first finalizes a
    draft that it finds expired; then it checks and writes. *)
Definition update (constants : ConstantsNamespace) (student : Student)
    (now : datetime) (questionId : QuestionId) (choiceId : ChoiceId)
  : ORM (Error + unit) :=
  _ ← auto_finalize constants student now;
  apply_update constants student now questionId choiceId.

(** *** The system as a state machine *)

(** Modelled from the spec: a call of one of the core's operations, with its
    arguments; the time of the call and the random source are arguments
    too. *)
Inductive Op :=
  | OpStart (student : Student) (now : datetime) (rng : list nat)
  | OpGet (student : Student) (now : datetime)
  | OpUpdate (student : Student) (now : datetime)
             (questionId : QuestionId) (choiceId : ChoiceId)
  | OpSubmit (student : Student) (now : datetime)
  | OpAutoFinalize (student : Student) (now : datetime).

(** Modelled from the spec: the database after a call; each call runs as one
    unit (section 5). *)
Definition step (constants : ConstantsNamespace) (op : Op) (db : DB) : DB :=
  match op with
  | OpStart student now rng => (start constants student now rng db).2
  | OpGet student now => (get constants student now db).2
  | OpUpdate student now q c => (update constants student now q c db).2
  | OpSubmit student now => (submit constants student now db).2
  | OpAutoFinalize student now => (auto_finalize constants student now db).2
  end.

(** Modelled from the spec: the states the system reaches.  It starts with a
    question bank and students, no responses and no drafts, and moves by
    calls of the operations. *)
Inductive reachable (constants : ConstantsNamespace) : DB -> Prop :=
  | reachable_init db :
      responses db = [] -> answers db = [] ->
      draft_responses db = [] -> draft_answers db = [] ->
      reachable constants db
  | reachable_step op db :
      reachable constants db -> reachable constants (step constants op db).

(** ** The score in the words of the specification (section 4.5) *)

(** The weight of a category: its entry in [SCORE], 0 without one. *)
Definition weight (constants : ConstantsNamespace) (category : Category) : Z :=
  match list_find (λ p, p.1 = category) (SCORE constants) with
  | Some (_, (_, w)) => w
  | None => 0
  end.

(** An answer whose chosen choice is marked correct. *)
Definition marked_correct (a : Answer) : Prop :=
  ∃ c, a_choice a = Some c ∧ c_correct c = true.

#[global] Instance marked_correct_dec (a : Answer) : Decision (marked_correct a).
Proof.
  unfold marked_correct.
  destruct (a_choice a) as [c|] eqn:Hc.
  - destruct (c_correct c) eqn:Hok.
    + left. exists c. split; [reflexivity | exact Hok].
    + right. intros [c' [Heq Hc']]. congruence.
  - right. intros [c' [Heq _]]. discriminate Heq.
Defined.

(** The answers of a response in a category whose choice is marked
    correct. *)
Definition correct_answers (category : Category) (self : Response) (db : DB)
  : list Answer :=
  filter (λ a, q_category (a_question a) = category ∧ marked_correct a)
         (Response_answer_set self db).

(** What one answer adds: the weight of its category when its choice is
    marked correct, nothing when it has no choice or a wrong one. *)
Definition contribution (constants : ConstantsNamespace) (a : Answer) : Z :=
  match a_choice a with
  | Some c =>
      if c_correct c then weight constants (q_category (a_question a)) else 0
  | None => 0
  end.

(** The sum of the weighted counts over the items of a mapping [L], for any
    list of answers. *)
Definition weighted_count (L : list (Category * Z)) (l : list Answer) : Z :=
  foldr Z.add 0
    ((λ p, p.2 * Z.of_nat (length (filter (λ a, q_category (a_question a) = p.1
                                                ∧ marked_correct a) l)))
     <$> L).

(** ** Sample data *)

Definition rei : Student := {| s_user := 1; s_name := "Rei" |}.
Definition asuka : Student := {| s_user := 2; s_name := "Asuka" |}.

Definition q1 : Question := {| q_pk := 1; q_content := "Characters"; q_category := RADIO |}.
Definition q2 : Question := {| q_pk := 2; q_content := "Evangelions"; q_category := RADIO |}.
Definition q3 : Question := {| q_pk := 3; q_content := "Angels"; q_category := BINARY |}.

Definition c11 : Choice := {| c_pk := 1; c_content := "Shinji Ikari"; c_correct := true; c_question := q1 |}.
Definition c12 : Choice := {| c_pk := 2; c_content := "Rei Ayanami"; c_correct := false; c_question := q1 |}.
Definition c21 : Choice := {| c_pk := 3; c_content := "Evangelion Unit-00"; c_correct := true; c_question := q2 |}.
Definition c31 : Choice := {| c_pk := 4; c_content := "Adam"; c_correct := true; c_question := q3 |}.
Definition c32 : Choice := {| c_pk := 5; c_content := "Sachiel"; c_correct := false; c_question := q3 |}.

(** Quotas [{RADIO: 2, BINARY: 1}], weights [{RADIO: 10, BINARY: 5}], three
    tries, a deadline 100 ticks after the start. *)
Definition sample_constants : ConstantsNamespace :=
  {| ROUTES := {[ "quiz:index" := {| pm_title := "Home" |} ]};
     MAX_TRIES := 3;
     SCORE := [(RADIO, 10); (BINARY, 5)];
     N_QUESTIONS_PER_RESPONSE := [(RADIO, 2%nat); (BINARY, 1%nat)];
     DEADLINE_DURATION := 100 |}.

Definition bank_db : DB :=
  {| questions := [q1; q2; q3]; choices := [c11; c12; c21; c31; c32];
     students := [rei; asuka]; responses := []; answers := [];
     draft_responses := []; draft_answers := [] |}.

(** A stored response of Rei: both RADIO questions right, the BINARY one
    wrong. *)
Definition rei_response : Response :=
  {| r_pk := Some 1; r_submit_at := 50; r_student := rei |}.

Definition scored_db : DB :=
  set_answers
    [ {| a_pk := Some 1; a_response := rei_response; a_question := q1; a_choice := Some c11 |};
      {| a_pk := Some 2; a_response := rei_response; a_question := q2; a_choice := Some c21 |};
      {| a_pk := Some 3; a_response := rei_response; a_question := q3; a_choice := Some c32 |} ]
    (set_responses [rei_response] bank_db).

(** A draft of Rei with the deadline 100: the first question answered, the
    other two not. *)
Definition rei_draft : DraftResponse :=
  {| d_pk := 1; d_student := rei; d_deadline := 100 |}.

Definition draft_db : DB :=
  set_drafts [rei_draft]
    [ {| da_pk := Some 1; da_response := rei_draft; da_question := q1; da_choice := Some c11 |};
      {| da_pk := Some 2; da_response := rei_draft; da_question := q2; da_choice := None |};
      {| da_pk := Some 3; da_response := rei_draft; da_question := q3; da_choice := None |} ]
    bank_db.

(** ** The page title in the words of the specification *)

(** No title is configured for the request: the context holds no constants,
    or the path does not resolve, or it resolves to a view name that is not
    in [constants.ROUTES]. *)
Definition no_route_title (resolve : string -> option string)
    (context : Context) (request : HttpRequest) : Prop :=
  ctx_constants context = None
  ∨ ∃ constants, ctx_constants context = Some constants
      ∧ (resolve (path_info request) = None
         ∨ ∃ view_name, resolve (path_info request) = Some view_name
             ∧ ROUTES constants !! view_name = None).

(** The URL configuration of the sample: one route. *)
Definition sample_resolve (path : string) : option string :=
  if decide (path = "/") then Some "quiz:index" else None.

Definition not_found : HTTPStatus := {| st_value := 404; st_phrase := "Not Found" |}.

Definition home_context : Context :=
  {| ctx_request := Some {| path_info := "/" |};
     ctx_constants := Some sample_constants;
     ctx_response_status := None |}.

(** A context with a status and no request. *)
Definition bare_context : Context :=
  {| ctx_request := None;
     ctx_constants := None;
     ctx_response_status := Some not_found |}.

(** ** The try limit as a property of a state *)

(** No student has more stored responses than [MAX_TRIES]. *)
Definition within_limit (constants : ConstantsNamespace) (db : DB) : Prop :=
  ∀ student, 0 ≤ Z.of_nat (attemptsUsed student db) ≤ MAX_TRIES constants.

(** Two calls on the bank: Rei starts at 0 and submits at 60. *)
Definition rei_submitted_db : DB :=
  step sample_constants (OpSubmit rei 60)
    (step sample_constants (OpStart rei 0 [1; 0; 7]%nat) bank_db).

(** ** quiz/models.py: display strings and the system check *)

(** [Question.Category.values] *)
Definition Category_values : list Category := [RADIO; BINARY].

(** [Question.Category(value).label]; [None] is the [ValueError] that the
    enumeration raises for a value that is not one of its members. *)
Definition Category_label (value : string) : option string :=
  if decide (value = RADIO) then Some "单项选择"
  else if decide (value = BINARY) then Some "判断"
  else None.

(** [Question.__str__] *)
Definition Question_str (self : Question) : option string :=
  label ← Category_label (q_category self);
  Some (q_content self +:+ "（" +:+ label +:+ "）").

(** [Choice.__str__] *)
Definition Choice_str (self : Choice) : string := c_content self.

(** [Answer.__str__]; the format of a missing choice is [str(None)]. *)
Definition Answer_str (self : Answer) : option string :=
  question ← Question_str (a_question self);
  Some ("“" +:+ question +:+ "” → “"
        +:+ from_option Choice_str "None" (a_choice self) +:+ "”").

(** A message of the check framework: one that [super().check()] returned,
    or one of the two errors that [Question.check] builds.  An error carries
    the keys that its hint lists; the hint joins them in the iteration order
    of a set, which Python leaves open. *)
Inductive CheckMessage :=
  | InheritedMessage (id : string)
  | BrokenNQuestionsKeys (broken : gset string)
  | BrokenScoreKeys (broken : gset string).

(** [Question.check]; [inherited] is what the call of [check] on [super()]
    returns. *)
Definition Question_check (constants : ConstantsNamespace)
    (inherited : list CheckMessage) : list CheckMessage :=
  let errors := inherited in
  let n_questions_keys : gset string :=
    list_to_set (N_QUESTIONS_PER_RESPONSE constants).*1 in
  let categories : gset string := list_to_set Category_values in
  let score_keys : gset string := list_to_set (SCORE constants).*1 in
  let broken_n_questions_keys := n_questions_keys ∖ categories in
  let broken_score_keys := categories ∖ score_keys in
  let errors :=
    if decide (broken_n_questions_keys ≠ ∅)
    then errors ++ [BrokenNQuestionsKeys broken_n_questions_keys]
    else errors in
  let errors :=
    if decide (broken_score_keys ≠ ∅)
    then errors ++ [BrokenScoreKeys broken_score_keys]
    else errors in
  errors.

(** ** Rows added to the tables *)

(** The database with one more response and more answers, as after
    [Response.objects.create(...)] and [Answer.objects.bulk_create(...)] in
    [tests.py]. *)
Definition stored (response : Response) (rows : list Answer) (db : DB) : DB :=
  set_answers (answers db ++ rows) (set_responses (responses db ++ [response]) db).

(** What the docstring of [DraftResponse.finalize] leaves to its caller:
    [response.save()] and the [bulk_create] of the answers. *)
Definition finalize_and_store (self : DraftResponse) (submit_at : datetime)
  : ORM Response :=
  '(response, new) ← DraftResponse_finalize self submit_at;
  response ← Response_save response;
  _ ← Answer_bulk_create response new;
  mret response.

(** The answers of a list that are to questions of a category. *)
Definition answers_in (category : Category) (l : list Answer) : nat :=
  length (filter (λ a, q_category (a_question a) = category) l).

(** The lookup [choice__correct=True] on a draft answer. *)
Definition draft_choice__correct (d : DraftAnswer) : bool :=
  match da_choice d with
  | Some c => c_correct c
  | None => false
  end.

(** More sample data: a question stored without a category, as
    [ResponseModelTests.setUp] creates it, a database with answers of two
    students, and constants that the system check rejects. *)
Definition q_blank : Question :=
  {| q_pk := 9; q_content := "The ultimate question"; q_category := "" |}.

Definition asuka_response : Response :=
  {| r_pk := Some 2; r_submit_at := 70; r_student := asuka |}.

Definition asuka_rows : list Answer :=
  [ {| a_pk := Some 4; a_response := asuka_response; a_question := q1; a_choice := Some c12 |};
    {| a_pk := Some 5; a_response := asuka_response; a_question := q3; a_choice := None |} ].

Definition perfect_rows : list Answer :=
  [ {| a_pk := Some 4; a_response := asuka_response; a_question := q1; a_choice := Some c11 |};
    {| a_pk := Some 5; a_response := asuka_response; a_question := q2; a_choice := Some c21 |};
    {| a_pk := Some 6; a_response := asuka_response; a_question := q3; a_choice := Some c31 |} ].

Definition broken_constants : ConstantsNamespace :=
  {| ROUTES := ∅;
     MAX_TRIES := 3;
     SCORE := [(RADIO, 10)];
     N_QUESTIONS_PER_RESPONSE := [(RADIO, 2%nat); ("M", 1%nat)];
     DEADLINE_DURATION := 100 |}.

(** ** Running database code *)

Ltac run_orm := unfold mbind, ORM_bind, bind, query, mret, ORM_ret, ret.

(** * Properties *)

(** ** Arithmetic of sums *)

Lemma foldl_add_foldr (l : list Z) (z : Z) :
  foldl Z.add z l = z + foldr Z.add 0 l.
Proof.
  revert z. induction l as [|x l IH]; intros z; simpl; [lia|].
  rewrite IH. lia.
Qed.

Lemma sum_foldr (l : list Z) : sum l = foldr Z.add 0 l.
Proof. unfold sum. rewrite foldl_add_foldr. lia. Qed.

Lemma sum_cons (x : Z) (l : list Z) : sum (x :: l) = x + sum l.
Proof. rewrite !sum_foldr. reflexivity. Qed.

Lemma sum_nonneg (l : list Z) : Forall (λ x, 0 ≤ x) l → 0 ≤ sum l.
Proof.
  induction 1 as [|x l Hx _ IH]; [reflexivity|].
  rewrite sum_cons. lia.
Qed.

Example scored_db_score :
  Response_score sample_constants rei_response scored_db = 20.
Proof. vm_compute. reflexivity. Qed.

(** ** ScoringEngine: [Response.score] *)

Lemma choice__correct_marked (a : Answer) :
  choice__correct a = true ↔ marked_correct a.
Proof.
  unfold choice__correct, marked_correct. split.
  - destruct (a_choice a) as [c|]; [|discriminate]. intros Hc. eauto.
  - intros [c [-> Hc]]. exact Hc.
Qed.

Lemma foldr_add_split {A} (f g : A → Z) (l : list A) :
  foldr Z.add 0 ((λ x, f x + g x) <$> l)
  = foldr Z.add 0 (f <$> l) + foldr Z.add 0 (g <$> l).
Proof. induction l as [|x l IH]; csimpl; [reflexivity|]. rewrite IH. lia. Qed.

Lemma foldr_add_ext {A} (f g : A → Z) (l : list A) :
  (∀ x, x ∈ l → f x = g x) →
  foldr Z.add 0 (f <$> l) = foldr Z.add 0 (g <$> l).
Proof.
  induction l as [|x l IH]; intros Hfg; csimpl; [reflexivity|].
  rewrite IH, (Hfg x); [reflexivity | left | ].
  intros y Hy. apply Hfg. by right.
Qed.

(** Over a mapping with distinct keys, the entries under one key add up to
    the entry that lookup finds. *)
Lemma pick_absent (L : list (Category * Z)) (k : Category) :
  k ∉ L.*1 →
  foldr Z.add 0 ((λ p, if decide (p.1 = k) then p.2 else 0) <$> L) = 0.
Proof.
  induction L as [|[c w] L IH]; intros Hk; csimpl; [reflexivity|].
  rewrite fmap_cons, not_elem_of_cons in Hk. destruct Hk as [Hne Hk].
  simpl in Hne. rewrite IH by exact Hk.
  destruct (decide (c = k)); [congruence | reflexivity].
Qed.

Lemma pick_weight (L : list (Category * Z)) (k : Category) :
  NoDup L.*1 →
  foldr Z.add 0 ((λ p, if decide (p.1 = k) then p.2 else 0) <$> L)
  = match list_find (λ p, p.1 = k) L with
    | Some (_, (_, w)) => w
    | None => 0
    end.
Proof.
  induction L as [|[c w] L IH]; intros Hnd; [reflexivity|].
  rewrite fmap_cons, NoDup_cons in Hnd. destruct Hnd as [Hc Hnd].
  cbn [fmap list_fmap foldr list_find fst snd].
  destruct (decide (c = k)) as [->|Hne].
  - rewrite pick_absent by exact Hc. lia.
  - rewrite IH by exact Hnd.
    destruct (list_find _ L) as [[i [c' w']]|]; reflexivity.
Qed.

Lemma weighted_count_nil (L : list (Category * Z)) : weighted_count L [] = 0.
Proof.
  unfold weighted_count.
  rewrite (foldr_add_ext _ (λ _, 0)) by (intros; rewrite filter_nil; simpl; lia).
  induction L as [|p L IH]; csimpl; [reflexivity | exact IH].
Qed.

Lemma weighted_count_cons (L : list (Category * Z)) (a : Answer) (l : list Answer) :
  weighted_count L (a :: l)
  = foldr Z.add 0
      ((λ p, if decide (p.1 = q_category (a_question a))
             then (if decide (marked_correct a) then p.2 else 0) else 0) <$> L)
    + weighted_count L l.
Proof.
  unfold weighted_count. rewrite <- foldr_add_split.
  apply foldr_add_ext. intros [c w] _. cbn [fst snd].
  rewrite filter_cons.
  destruct (decide (c = q_category (a_question a))) as [->|Hne].
  - destruct (decide (marked_correct a)) as [Hm|Hm].
    + rewrite decide_True by (split; [reflexivity | exact Hm]).
      rewrite length_cons. lia.
    + rewrite decide_False by (intros [_ H]; exact (Hm H)). lia.
  - rewrite decide_False by (intros [H _]; congruence). lia.
Qed.

Lemma score_weighted_count (constants : ConstantsNamespace) (self : Response)
    (db : DB) :
  Response_score constants self db
  = weighted_count (SCORE constants) (Response_answer_set self db).
Proof.
  unfold Response_score, weighted_count. rewrite sum_foldr.
  apply foldr_add_ext. intros [c w] _. cbn [fst snd].
  f_equal. f_equal. f_equal. apply list_filter_iff. intros a.
  rewrite choice__correct_marked. reflexivity.
Qed.

Lemma weighted_count_contributions (constants : ConstantsNamespace)
    (l : list Answer) :
  NoDup (SCORE constants).*1 →
  weighted_count (SCORE constants) l
  = foldr Z.add 0 (contribution constants <$> l).
Proof.
  intros Hnd. induction l as [|a l IH].
  - apply weighted_count_nil.
  - rewrite weighted_count_cons, IH. csimpl. f_equal.
    unfold contribution, weight.
    destruct (decide (marked_correct a)) as [[c [Hc Hok]]|Hm].
    + rewrite Hc, Hok. apply pick_weight, Hnd.
    + rewrite (foldr_add_ext _ (λ _, 0))
        by (intros p _; destruct (decide _); reflexivity).
      transitivity 0.
      { clear. induction (SCORE constants) as [|p L IH]; csimpl; [reflexivity | exact IH]. }
      destruct (a_choice a) as [c|] eqn:Hc; [|reflexivity].
      destruct (c_correct c) eqn:Hok; [|reflexivity].
      exfalso. apply Hm. exists c. split; [exact Hc | exact Hok].
Qed.

(** C1.  The score of a response is the sum, over the categories of [SCORE],
    of the weight of the category times the number of the response's answers
    in that category whose chosen choice is marked correct.  It is also the
    sum of what each answer contributes: the weight of its category for a
    correct choice, zero for no choice and for an incorrect choice.  With
    non-negative weights the score is never negative.  [SCORE] is a dict, so
    its keys are distinct. *)
Theorem score_is_weighted_count_of_correct_answers
    (constants : ConstantsNamespace) (self : Response) (db : DB) :
  NoDup (SCORE constants).*1 →
  Forall (λ p, 0 ≤ p.2) (SCORE constants) →
  Response_score constants self db
  = sum ((λ p, p.2 * Z.of_nat (length (correct_answers p.1 self db)))
         <$> SCORE constants)
  ∧ Response_score constants self db
    = sum (contribution constants <$> Response_answer_set self db)
  ∧ (∀ a, a_choice a = None ∨ (∃ c, a_choice a = Some c ∧ c_correct c = false) →
          contribution constants a = 0)
  ∧ 0 ≤ Response_score constants self db.
Proof.
  intros Hnd Hpos. split; [|split; [|split]].
  - rewrite score_weighted_count, sum_foldr. reflexivity.
  - rewrite score_weighted_count, sum_foldr.
    apply weighted_count_contributions, Hnd.
  - intros a [Hnone | [c [Hc Hwrong]]]; unfold contribution.
    + rewrite Hnone. reflexivity.
    + rewrite Hc, Hwrong. reflexivity.
  - rewrite score_weighted_count. unfold weighted_count.
    rewrite <- sum_foldr. apply sum_nonneg.
    apply Forall_fmap. eapply Forall_impl; [exact Hpos|].
    intros [c w] Hw. simpl in *. lia.
Qed.

Lemma score_is_weighted_count_of_correct_answers_witness :
  NoDup (SCORE sample_constants).*1
  ∧ Forall (λ p, 0 ≤ p.2) (SCORE sample_constants)
  ∧ Response_score sample_constants rei_response scored_db = 20
  ∧ sum (contribution sample_constants
         <$> Response_answer_set rei_response scored_db) = 20.
Proof.
  assert (Hnd : NoDup (SCORE sample_constants).*1).
  { apply (bool_decide_unpack _). vm_compute. exact I. }
  assert (Hpos : Forall (λ p, 0 ≤ p.2) (SCORE sample_constants)).
  { repeat constructor; simpl; lia. }
  pose proof (score_is_weighted_count_of_correct_answers
                sample_constants rei_response scored_db Hnd Hpos)
    as [_ [Hsum _]].
  split; [exact Hnd|]. split; [exact Hpos|].
  split; [vm_compute; reflexivity|].
  rewrite <- Hsum. vm_compute. reflexivity.
Defined.

(** ** FinalizationService: [DraftResponse.finalize] *)

Lemma finalize_run (self : DraftResponse) (submit_at : datetime) (db : DB) :
  DraftResponse_finalize self submit_at db
  = (({| r_pk := None; r_submit_at := submit_at; r_student := d_student self |},
      (λ a, DraftAnswer_finalize a
              {| r_pk := None; r_submit_at := submit_at;
                 r_student := d_student self |})
      <$> DraftResponse_answer_set self db),
     db).
Proof. reflexivity. Qed.

(** C3.  [finalize] returns a response of the draft's student with the given
    submission timestamp, and one answer per draft answer of the draft, each
    with the question and the choice of its draft answer (no choice for an
    unanswered one) and each an answer of that response. *)
Theorem finalize_one_answer_per_draft_answer
    (self : DraftResponse) (submit_at : datetime) (db : DB) :
  ∃ response new,
    (DraftResponse_finalize self submit_at db).1 = (response, new)
    ∧ r_student response = d_student self
    ∧ r_submit_at response = submit_at
    ∧ length new = length (DraftResponse_answer_set self db)
    ∧ Forall2 (λ d a, a_question a = da_question d
                      ∧ a_choice a = da_choice d
                      ∧ a_response a = response)
              (DraftResponse_answer_set self db) new.
Proof.
  rewrite finalize_run. eexists _, _. split; [reflexivity|].
  split; [reflexivity|]. split; [reflexivity|].
  split; [apply length_fmap|].
  induction (DraftResponse_answer_set self db) as [|d l IH]; csimpl.
  - constructor.
  - constructor; [|exact IH]. repeat split.
Qed.

Example finalize_draft_db :
  (DraftResponse_finalize rei_draft 60 draft_db).1.2
  = [ {| a_pk := None; a_question := q1; a_choice := Some c11;
         a_response := {| r_pk := None; r_submit_at := 60; r_student := rei |} |};
      {| a_pk := None; a_question := q2; a_choice := None;
         a_response := {| r_pk := None; r_submit_at := 60; r_student := rei |} |};
      {| a_pk := None; a_question := q3; a_choice := None;
         a_response := {| r_pk := None; r_submit_at := 60; r_student := rei |} |} ].
Proof. vm_compute. reflexivity. Qed.

(** The builder on its own, as its docstring says: it does not touch the
    database, and the response and the answers it returns are unsaved. *)
Lemma finalize_leaves_database_unchanged
    (self : DraftResponse) (submit_at : datetime) (db : DB) :
  (DraftResponse_finalize self submit_at db).2 = db
  ∧ r_pk (DraftResponse_finalize self submit_at db).1.1 = None
  ∧ Forall (λ a, a_pk a = None) (DraftResponse_finalize self submit_at db).1.2.
Proof.
  rewrite finalize_run. split; [reflexivity|]. split; [reflexivity|].
  simpl. apply Forall_fmap, Forall_forall. intros a _. reflexivity.
Qed.

(** ** TryLimiter: [Student.n_left_tries] *)

(** C7.  The tries used are the student's stored responses and nothing else:
    whatever the draft tables hold, the count and the tries left are the
    same.  [canStart] holds exactly when the count is below [MAX_TRIES],
    which is exactly when [n_left_tries] is positive. *)
Theorem tries_count_responses_not_drafts
    (constants : ConstantsNamespace) (student : Student) (db : DB) :
  attemptsUsed student db
  = length (filter (λ r, s_user (r_student r) = s_user student) (responses db))
  ∧ Student_n_left_tries constants student db
    = MAX_TRIES constants - Z.of_nat (attemptsUsed student db)
  ∧ (∀ ds das,
       attemptsUsed student (set_drafts ds das db) = attemptsUsed student db
       ∧ Student_n_left_tries constants student (set_drafts ds das db)
         = Student_n_left_tries constants student db)
  ∧ (canStart constants student db = true
     ↔ Z.of_nat (attemptsUsed student db) < MAX_TRIES constants)
  ∧ (canStart constants student db = true
     ↔ 0 < Student_n_left_tries constants student db).
Proof.
  split; [reflexivity|]. split; [reflexivity|]. split; [intros; split; reflexivity|].
  unfold canStart, Student_n_left_tries, attemptsUsed.
  rewrite bool_decide_eq_true. split; [reflexivity|]. lia.
Qed.

Example draft_does_not_use_a_try :
  attemptsUsed rei draft_db = 0%nat
  ∧ Student_n_left_tries sample_constants rei draft_db = 3
  ∧ canStart sample_constants rei draft_db = true.
Proof. vm_compute. repeat split. Qed.

(** ** The template tag [current_page_title] *)

Example title_of_status :
  current_page_title sample_resolve
    {| ctx_request := Some {| path_info := "/nowhere" |};
       ctx_constants := Some sample_constants;
       ctx_response_status := Some not_found |} "Contest"
  = inr "404 Not Found".
Proof. vm_compute. reflexivity. Qed.

(** C10, as stated: for every context.  A context that holds a status and
    no request does not give the status string: the lookup of the request,
    the first thing the tag does, raises [KeyError]. *)
Lemma current_page_title_without_request_counterexample :
  current_page_title sample_resolve bare_context "" = inl (KeyError "request")
  ∧ current_page_title sample_resolve bare_context "" ≠ inr "404 Not Found".
Proof. split; [reflexivity | discriminate]. Qed.

(** C10, amended.  For a context that holds the request: the title of the
    route when the context holds constants and the path resolves to a view
    name in [constants.ROUTES]; failing that, the value and the phrase of
    [response_status] when the context holds one; failing that, [default].
    A path that does not resolve raises nothing and falls through. *)
Theorem current_page_title_priority
    (resolve : string -> option string) (context : Context)
    (default : string) (request : HttpRequest) :
  ctx_request context = Some request →
  (∀ constants view_name page,
     ctx_constants context = Some constants →
     resolve (path_info request) = Some view_name →
     ROUTES constants !! view_name = Some page →
     current_page_title resolve context default = inr (pm_title page))
  ∧ (∀ status,
       no_route_title resolve context request →
       ctx_response_status context = Some status →
       current_page_title resolve context default
       = inr (pretty (st_value status) +:+ " " +:+ st_phrase status))
  ∧ (no_route_title resolve context request →
     ctx_response_status context = None →
     current_page_title resolve context default = inr default)
  ∧ (resolve (path_info request) = None →
     ∃ title, current_page_title resolve context default = inr title).
Proof.
  intros Hreq. unfold current_page_title, no_route_title. rewrite Hreq.
  split; [|split; [|split]].
  - intros constants view_name page -> -> ->. reflexivity.
  - intros status Hno ->.
    destruct Hno as [->|[constants [-> [->|[view_name [-> ->]]]]]]; reflexivity.
  - intros Hno ->.
    destruct Hno as [->|[constants [-> [->|[view_name [-> ->]]]]]]; reflexivity.
  - intros ->.
    destruct (ctx_constants context), (ctx_response_status context); eauto.
Qed.

Lemma current_page_title_priority_witness :
  ctx_request home_context = Some {| path_info := "/" |}
  ∧ current_page_title sample_resolve home_context "" = inr "Home".
Proof.
  split; [reflexivity|].
  pose proof (current_page_title_priority sample_resolve home_context ""
                {| path_info := "/" |} eq_refl) as [Hroute _].
  apply (Hroute sample_constants "quiz:index" {| pm_title := "Home" |});
    [reflexivity | reflexivity | ].
  vm_compute. reflexivity.
Defined.

(** ** QuestionSelector: [draw] *)

Lemma sample_None {A} (rng : list nat) (population : list A) (k : nat) :
  sample rng population k = None ↔ (length population < k)%nat.
Proof.
  revert rng population. induction k as [|k IH]; intros rng population.
  - simpl. split; [discriminate | lia].
  - cbn [sample].
    destruct (population !! (hd 0 rng `mod` length population)%nat)
      as [x|] eqn:Hx.
    + pose proof (lookup_lt_Some _ _ _ Hx) as Hlt.
      specialize (IH (tl rng)
        (delete (hd 0 rng `mod` length population)%nat population)).
      rewrite length_delete in IH by eauto.
      destruct (sample (tl rng) _ k) as [[rest rng']|].
      * split; [discriminate|]. intros Hk.
        destruct IH as [_ IH]. discriminate IH. lia.
      * split; [|reflexivity]. intros _. destruct IH as [IH _].
        specialize (IH eq_refl). lia.
    + split; [|reflexivity]. intros _.
      apply lookup_ge_None in Hx.
      destruct population as [|y population]; [simpl; lia|].
      exfalso. pose proof (Nat.mod_upper_bound (hd 0%nat rng) (length (y :: population))).
      simpl in *. lia.
Qed.

(** A sample is [k] elements of the population, each taken once: the
    population is the sample and what is left, reordered. *)
Lemma sample_Some {A} (rng : list nat) (population : list A) (k : nat)
    (xs : list A) (rng' : list nat) :
  sample rng population k = Some (xs, rng') →
  length xs = k ∧ ∃ rest, population ≡ₚ xs ++ rest.
Proof.
  revert rng population xs rng'.
  induction k as [|k IH]; intros rng population xs rng'.
  - simpl. intros [= <- <-]. split; [reflexivity|]. exists population. reflexivity.
  - cbn [sample].
    destruct (population !! (hd 0 rng `mod` length population)%nat)
      as [x|] eqn:Hx; [|discriminate].
    destruct (sample (tl rng) _ k) as [[rest rng'']|] eqn:Hs; [|discriminate].
    intros [= <- <-]. destruct (IH _ _ _ _ Hs) as [Hlen [left Hperm]].
    split; [simpl; lia|]. exists left.
    rewrite (delete_Permutation _ _ _ Hx), Hperm. reflexivity.
Qed.

Lemma draw_error (quotas : list (Category * nat)) (bank : list Question)
    (rng : list nat) (e : Error) :
  draw quotas bank rng = inl e → e = InsufficientPopulationError.
Proof.
  revert rng. induction quotas as [|[c n] quotas IH]; intros rng; cbn [draw].
  - discriminate.
  - destruct (sample rng _ n) as [[picked rng']|]; [|congruence].
    destruct (draw quotas bank rng') as [e'|others] eqn:Hd; [|discriminate].
    intros [= <-]. eapply IH, Hd.
Qed.

Lemma draw_fails (quotas : list (Category * nat)) (bank : list Question)
    (rng : list nat) :
  (∃ e, draw quotas bank rng = inl e)
  ↔ ∃ c n, (c, n) ∈ quotas ∧ (available c bank < n)%nat.
Proof.
  revert rng. induction quotas as [|[c n] quotas IH]; intros rng; cbn [draw].
  - split; [intros [e He]; discriminate He|].
    intros [c [n [Hin _]]]. by apply elem_of_nil in Hin.
  - destruct (sample rng _ n) as [[picked rng']|] eqn:Hs.
    + assert (¬ (available c bank < n)%nat) as Hok.
      { intros Hlt. unfold available in Hlt.
        apply (sample_None rng) in Hlt. rewrite Hlt in Hs. discriminate Hs. }
      specialize (IH rng').
      destruct (draw quotas bank rng') as [e'|others].
      * split; [|eauto]. intros _.
        destruct IH as [IH _]. destruct IH as [c' [n' [Hin Hlt]]]; [eauto|].
        exists c', n'. split; [by right | exact Hlt].
      * split; [intros [e He]; discriminate He|].
        intros [c' [n' [Hin Hlt]]]. apply elem_of_cons in Hin.
        destruct Hin as [[= -> ->]|Hin]; [contradiction|].
        destruct IH as [_ IH]. destruct IH as [e He]; [eauto | discriminate He].
    + split; [|eauto]. intros _. apply sample_None in Hs.
      exists c, n. split; [left | exact Hs].
Qed.

(** C8.  [draw] fails with [InsufficientPopulationError] exactly when some
    category has fewer questions in the bank than its quota, and with no
    other error; on an empty bank with a positive quota it fails. *)
Theorem draw_fails_iff_quota_exceeds_bank
    (quotas : list (Category * nat)) (bank : list Question) (rng : list nat) :
  (draw quotas bank rng = inl InsufficientPopulationError
   ↔ ∃ c n, (c, n) ∈ quotas ∧ (available c bank < n)%nat)
  ∧ (∀ e, draw quotas bank rng = inl e → e = InsufficientPopulationError)
  ∧ (∀ c n, draw [(c, S n)] [] rng = inl InsufficientPopulationError).
Proof.
  split; [|split].
  - rewrite <- draw_fails. split; [eauto|].
    intros [e He]. rewrite He. f_equal. eapply draw_error, He.
  - intros e. apply draw_error.
  - intros c n.
    assert (∃ e, draw [(c, S n)] [] rng = inl e) as [e He].
    { apply draw_fails. exists c, (S n). split; [left|].
      unfold available. rewrite filter_nil. simpl. lia. }
    rewrite He. f_equal. eapply draw_error, He.
Qed.

Example draw_from_empty_bank :
  draw (N_QUESTIONS_PER_RESPONSE sample_constants) [] [4; 2]%nat
  = inl InsufficientPopulationError.
Proof. reflexivity. Qed.

Example draw_from_bank :
  draw (N_QUESTIONS_PER_RESPONSE sample_constants) [q1; q2; q3] [1; 0; 7]%nat
  = inr [q2; q1; q3].
Proof. vm_compute. reflexivity. Qed.

Lemma NoDup_fmap_inj_on {A B} (f : A → B) (l : list A) (x y : A) :
  NoDup (f <$> l) → x ∈ l → y ∈ l → f x = f y → x = y.
Proof.
  induction l as [|z l IH]; intros Hnd Hx Hy Hf.
  - by apply elem_of_nil in Hx.
  - rewrite fmap_cons, NoDup_cons in Hnd. destruct Hnd as [Hz Hnd].
    apply elem_of_cons in Hx. apply elem_of_cons in Hy.
    destruct Hx as [->|Hx], Hy as [->|Hy].
    + reflexivity.
    + exfalso. apply Hz. rewrite Hf. by apply list_elem_of_fmap_2.
    + exfalso. apply Hz. rewrite <- Hf. by apply list_elem_of_fmap_2.
    + by apply IH.
Qed.

Lemma quota_of_cons (c : Category) (n : nat) (quotas : list (Category * nat))
    (c' : Category) :
  quota_of ((c, n) :: quotas) c' = if decide (c = c') then n else quota_of quotas c'.
Proof.
  unfold quota_of. cbn [list_find fst].
  destruct (decide (c = c')); [reflexivity|].
  destruct (list_find _ quotas) as [[i [c'' n'']]|]; reflexivity.
Qed.

Lemma quota_of_absent (quotas : list (Category * nat)) (c : Category) :
  c ∉ quotas.*1 → quota_of quotas c = 0%nat.
Proof.
  induction quotas as [|[c' n] quotas IH]; intros Hc; [reflexivity|].
  rewrite fmap_cons, not_elem_of_cons in Hc. destruct Hc as [Hne Hc].
  rewrite quota_of_cons, decide_False by (simpl in Hne; congruence).
  by apply IH.
Qed.

(** What a successful draw holds: questions of the bank, of the categories
    of the mapping, none twice when the bank holds none twice, and for each
    category as many as its quota. *)
Lemma draw_result (quotas : list (Category * nat)) (bank : list Question)
    (rng : list nat) (qs : list Question) :
  NoDup quotas.*1 → NoDup bank →
  draw quotas bank rng = inr qs →
  (∀ q, q ∈ qs → q ∈ bank ∧ q_category q ∈ quotas.*1)
  ∧ NoDup qs
  ∧ ∀ c, length (filter (λ q, q_category q = c) qs) = quota_of quotas c.
Proof.
  intros Hkeys Hbank. revert rng qs Hkeys.
  induction quotas as [|[c n] quotas IH]; intros rng qs Hkeys; cbn [draw].
  - intros [= <-]. split; [|split].
    + intros q Hq. by apply elem_of_nil in Hq.
    + constructor.
    + intros c. reflexivity.
  - rewrite fmap_cons, NoDup_cons in Hkeys. destruct Hkeys as [Hc Hkeys].
    destruct (sample rng _ n) as [[picked rng']|] eqn:Hs; [|discriminate].
    destruct (draw quotas bank rng') as [e|others] eqn:Hd; [discriminate|].
    intros [= <-].
    destruct (sample_Some _ _ _ _ _ Hs) as [Hlen [rest Hperm]].
    destruct (IH _ _ Hkeys Hd) as [Hin [Hnd Hcount]].
    assert (Hpicked : ∀ q, q ∈ picked → q ∈ bank ∧ q_category q = c).
    { intros q Hq.
      assert (q ∈ filter (λ q, q_category q = c) bank) as Hq'.
      { rewrite Hperm. apply elem_of_app. by left. }
      apply list_elem_of_filter in Hq'. tauto. }
    split; [|split].
    + intros q Hq. apply elem_of_app in Hq. destruct Hq as [Hq|Hq].
      * destruct (Hpicked q Hq) as [Hb Hcat]. split; [exact Hb|].
        rewrite fmap_cons, Hcat. left.
      * destruct (Hin q Hq) as [Hb Hcat]. split; [exact Hb|].
        rewrite fmap_cons. by right.
    + apply NoDup_app. split; [|split; [|exact Hnd]].
      * assert (NoDup (picked ++ rest)) as Hnd'.
        { rewrite <- Hperm. by apply NoDup_filter. }
        apply NoDup_app in Hnd'. tauto.
      * intros q Hq Hq'. destruct (Hpicked q Hq) as [_ Hcat].
        destruct (Hin q Hq') as [_ Hcat']. apply Hc. simpl. by rewrite <- Hcat.
    + intros c'. rewrite filter_app, length_app, Hcount, quota_of_cons.
      destruct (decide (c = c')) as [<-|Hne].
      * rewrite quota_of_absent by exact Hc.
        assert (filter (λ q, q_category q = c) picked = picked) as ->; [|lia].
        clear -Hpicked. induction picked as [|q picked IH]; [reflexivity|].
        rewrite filter_cons_True by (apply Hpicked; left).
        f_equal. apply IH. intros q' Hq'. apply Hpicked. by right.
      * assert (filter (λ q, q_category q = c') picked = []) as ->; [|reflexivity].
        clear -Hpicked Hne. induction picked as [|q picked IH]; [reflexivity|].
        rewrite filter_cons_False.
        -- apply IH. intros q' Hq'. apply Hpicked. by right.
        -- destruct (Hpicked q) as [_ Hcat]; [left | congruence].
Qed.

(** C2.  When the keys of the quota mapping are distinct, the bank holds no
    question twice, and every category has as many questions in the bank as
    its quota asks for, [draw] returns questions of the bank: for each
    category exactly as many as its quota (none for a category without one),
    and no question twice. *)
Theorem draw_meets_quotas
    (quotas : list (Category * nat)) (bank : list Question) (rng : list nat) :
  NoDup quotas.*1 →
  NoDup (q_pk <$> bank) →
  (∀ c n, (c, n) ∈ quotas → (n ≤ available c bank)%nat) →
  ∃ qs, draw quotas bank rng = inr qs
    ∧ (∀ c, length (filter (λ q, q_category q = c) qs) = quota_of quotas c)
    ∧ NoDup (q_pk <$> qs)
    ∧ (∀ q, q ∈ qs → q ∈ bank).
Proof.
  intros Hkeys Hbank Hsat.
  destruct (draw quotas bank rng) as [e|qs] eqn:Hd.
  - exfalso.
    assert (∃ c n, (c, n) ∈ quotas ∧ (available c bank < n)%nat)
      as [c [n [Hin Hlt]]] by (apply (draw_fails quotas bank rng); eauto).
    specialize (Hsat c n Hin). lia.
  - exists qs. split; [reflexivity|].
    destruct (draw_result quotas bank rng qs Hkeys (NoDup_fmap_1 _ _ Hbank) Hd)
      as [Hin [Hnd Hcount]].
    split; [exact Hcount|]. split; [|intros q Hq; by apply Hin].
    apply NoDup_fmap_2_strong; [|exact Hnd].
    intros x y Hx Hy. apply (NoDup_fmap_inj_on q_pk bank); [exact Hbank | | ];
      by apply Hin.
Qed.

Lemma draw_meets_quotas_witness :
  ∃ qs, draw (N_QUESTIONS_PER_RESPONSE sample_constants) [q1; q2; q3]
             [1; 0; 7]%nat = inr qs
    ∧ length (filter (λ q, q_category q = RADIO) qs) = 2%nat
    ∧ length (filter (λ q, q_category q = BINARY) qs) = 1%nat
    ∧ NoDup (q_pk <$> qs).
Proof.
  assert (Hkeys : NoDup (N_QUESTIONS_PER_RESPONSE sample_constants).*1).
  { apply (bool_decide_unpack _). vm_compute. exact I. }
  assert (Hbank : NoDup (q_pk <$> [q1; q2; q3])).
  { apply (bool_decide_unpack _). vm_compute. exact I. }
  assert (Hsat : ∀ c n, (c, n) ∈ N_QUESTIONS_PER_RESPONSE sample_constants →
                        (n ≤ available c [q1; q2; q3])%nat).
  { intros c n Hin. simpl in Hin.
    apply elem_of_cons in Hin. destruct Hin as [[= -> ->]|Hin]; [vm_compute; lia|].
    apply elem_of_cons in Hin. destruct Hin as [[= -> ->]|Hin]; [vm_compute; lia|].
    by apply elem_of_nil in Hin. }
  destruct (draw_meets_quotas _ _ [1; 0; 7]%nat Hkeys Hbank Hsat)
    as [qs [Hd [Hcount [Hnd _]]]].
  exists qs. split; [exact Hd|]. split; [apply (Hcount RADIO)|].
  split; [apply (Hcount BINARY) | exact Hnd].
Defined.

(** ** The finalization primitive *)

Lemma draft_response_found (student : Student) (db : DB) (draft : DraftResponse) :
  Student_draft_response student db = Some draft →
  draft ∈ draft_responses db ∧ s_user (d_student draft) = s_user student.
Proof.
  unfold Student_draft_response. intros Hhead.
  apply head_Some in Hhead. destruct Hhead as [l Hl].
  assert (draft ∈ filter (λ d, s_user (d_student d) = s_user student)
                         (draft_responses db)) as Hin
    by (rewrite Hl; left).
  apply list_elem_of_filter in Hin. tauto.
Qed.

Lemma bulk_rows_copy (saved unsaved : Response) (l : list DraftAnswer)
    (base : pk) :
  Forall2 (λ d a, a_question a = da_question d
                  ∧ a_choice a = da_choice d
                  ∧ a_response a = saved)
    l
    (imap (λ i a, {| a_pk := Some (base + Z.of_nat i);
                     a_response := saved;
                     a_question := a_question a;
                     a_choice := a_choice a |})
          ((λ a, DraftAnswer_finalize a unsaved) <$> l)).
Proof.
  revert base. induction l as [|d l IH]; intros base.
  - constructor.
  - rewrite fmap_cons, imap_cons. constructor; [repeat split|].
    erewrite imap_ext; [apply (IH (base + 1))|].
    intros i a _. simpl. f_equal. f_equal. lia.
Qed.

(** What the primitive does to a draft that is stored. *)
Lemma finalization_present (draft : DraftResponse) (submit_at : datetime)
    (db : DB) :
  draft ∈ draft_responses db →
  ∃ saved db',
    FinalizationService_finalize draft submit_at db = (Some saved, db')
    ∧ r_submit_at saved = submit_at
    ∧ r_student saved = d_student draft
    ∧ is_Some (r_pk saved)
    ∧ responses db' = responses db ++ [saved]
    ∧ draft_responses db'
      = filter (λ d, d_pk d ≠ d_pk draft) (draft_responses db)
    ∧ draft_answers db'
      = filter (λ a, d_pk (da_response a) ≠ d_pk draft) (draft_answers db)
    ∧ ∃ rows, answers db' = answers db ++ rows
        ∧ Forall2 (λ d a, a_question a = da_question d
                          ∧ a_choice a = da_choice d
                          ∧ a_response a = saved)
                  (DraftResponse_answer_set draft db) rows.
Proof.
  intros Hin.
  unfold FinalizationService_finalize; run_orm.
  rewrite bool_decide_eq_true_2 by (by apply list_elem_of_fmap_2).
  rewrite finalize_run.
  cbn -[next_pk imap filter DraftResponse_answer_set].
  eexists _, _. split; [reflexivity|].
  split; [reflexivity|]. split; [reflexivity|]. split; [eauto|].
  split; [reflexivity|]. split; [reflexivity|]. split; [reflexivity|].
  eexists. split; [reflexivity|]. apply bulk_rows_copy.
Qed.





(** The operations, run on a database. *)

Lemma auto_finalize_run (constants : ConstantsNamespace) (student : Student)
    (now : datetime) (db : DB) :
  auto_finalize constants student now db
  = match Student_draft_response student db with
    | Some draft =>
        if DraftResponse_outdated now draft && canStart constants student db
        then FinalizationService_finalize draft (d_deadline draft) db
        else (None, db)
    | None => (None, db)
    end.
Proof.
  unfold auto_finalize; run_orm.
  destruct (Student_draft_response student db) as [draft|]; [|reflexivity].
  destruct (DraftResponse_outdated now draft && canStart constants student db);
    reflexivity.
Qed.

Lemma submit_run (constants : ConstantsNamespace) (student : Student)
    (now : datetime) (db : DB) :
  submit constants student now db
  = match Student_draft_response student db with
    | None => (inl NoLiveDraftError, db)
    | Some draft =>
        if canStart constants student db then
          match FinalizationService_finalize draft now db with
          | (Some response, db') => (inr response, db')
          | (None, db') => (inl NoLiveDraftError, db')
          end
        else (inl TryLimitExceededError, db)
    end.
Proof.
  unfold submit; run_orm.
  destruct (Student_draft_response student db) as [draft|]; [|reflexivity].
  destruct (canStart constants student db); [|reflexivity].
  destruct (FinalizationService_finalize draft now db) as [[response|] db'];
    reflexivity.
Qed.

Lemma outdated_iff (now : datetime) (draft : DraftResponse) :
  DraftResponse_outdated now draft = true ↔ now > d_deadline draft.
Proof. unfold DraftResponse_outdated. apply Z.gtb_gt. Qed.

(** C5.  A response that the auto-finalization trigger produces comes from
    an expired draft of the student and carries the deadline of that draft
    as its submission timestamp, whatever the time [now] at which the expiry
    is detected; the trigger does finalize an expired draft of a student
    with tries left.  A response that an explicit submit produces carries
    [now]. *)
Theorem auto_finalize_stamps_deadline
    (constants : ConstantsNamespace) (student : Student) (now : datetime)
    (db : DB) :
  (∀ response db',
     auto_finalize constants student now db = (Some response, db') →
     ∃ draft, Student_draft_response student db = Some draft
       ∧ now > d_deadline draft
       ∧ r_submit_at response = d_deadline draft
       ∧ r_student response = d_student draft
       ∧ response ∈ responses db')
  ∧ (∀ draft,
       Student_draft_response student db = Some draft →
       now > d_deadline draft →
       canStart constants student db = true →
       ∃ response db',
         auto_finalize constants student now db = (Some response, db')
         ∧ r_submit_at response = d_deadline draft)
  ∧ (∀ response db',
       submit constants student now db = (inr response, db') →
       r_submit_at response = now ∧ response ∈ responses db').
Proof.
  split; [|split].
  - intros response db'. rewrite auto_finalize_run.
    destruct (Student_draft_response student db) as [draft|] eqn:Hfound;
      [|discriminate].
    destruct (DraftResponse_outdated now draft) eqn:Hout; [|discriminate].
    destruct (canStart constants student db); [|discriminate].
    cbn [andb]. intros Hrun.
    destruct (draft_response_found _ _ _ Hfound) as [Hin _].
    destruct (finalization_present draft (d_deadline draft) db Hin)
      as [saved [db'' [Hrun' [Hat [Hst [_ [Hresp _]]]]]]].
    rewrite Hrun' in Hrun. injection Hrun as <- <-.
    exists draft. split; [reflexivity|]. split; [by apply outdated_iff|].
    split; [exact Hat|]. split; [exact Hst|].
    rewrite Hresp. apply elem_of_app. right. left.
  - intros draft Hfound Hnow Hok. rewrite auto_finalize_run, Hfound, Hok.
    apply outdated_iff in Hnow. rewrite Hnow. cbn [andb].
    destruct (draft_response_found _ _ _ Hfound) as [Hin _].
    destruct (finalization_present draft (d_deadline draft) db Hin)
      as [saved [db'' [Hrun' [Hat _]]]].
    exists saved, db''. split; [exact Hrun' | exact Hat].
  - intros response db'. rewrite submit_run.
    destruct (Student_draft_response student db) as [draft|] eqn:Hfound;
      [|discriminate].
    destruct (canStart constants student db); [|discriminate].
    destruct (draft_response_found _ _ _ Hfound) as [Hin _].
    destruct (finalization_present draft now db Hin)
      as [saved [db'' [Hrun' [Hat [_ [_ [Hresp _]]]]]]].
    rewrite Hrun'. intros [= <- <-]. split; [exact Hat|].
    rewrite Hresp. apply elem_of_app. right. left.
Qed.

(** Rei's draft, deadline 100, found expired at 250 and submitted at 60. *)
Lemma auto_finalize_stamps_deadline_witness :
  (∃ response db',
     auto_finalize sample_constants rei 250 draft_db = (Some response, db')
     ∧ r_submit_at response = 100)
  ∧ (∃ response db',
       submit sample_constants rei 60 draft_db = (inr response, db')
       ∧ r_submit_at response = 60).
Proof.
  pose proof (auto_finalize_stamps_deadline sample_constants rei 250 draft_db)
    as [_ [Hauto _]].
  pose proof (auto_finalize_stamps_deadline sample_constants rei 60 draft_db)
    as [_ [_ Hsubmit]].
  split.
  - apply (Hauto rei_draft); [reflexivity | reflexivity | reflexivity].
  - eexists _, _. split; [vm_compute; reflexivity|].
    eapply Hsubmit. vm_compute. reflexivity.
Defined.

(** ** DraftSession: expiry and [update] *)

Lemma update_run (constants : ConstantsNamespace) (student : Student)
    (now : datetime) (questionId : QuestionId) (choiceId : ChoiceId) (db : DB) :
  update constants student now questionId choiceId db
  = apply_update constants student now questionId choiceId
      (auto_finalize constants student now db).2.
Proof.
  unfold update; run_orm.
  destruct (auto_finalize constants student now db) as [done db']. reflexivity.
Qed.









Example update_at_deadline_clears_answer :
  da_choice <$> draft_answers
    (update sample_constants rei 100 (QuestionNo 1) NoChoice draft_db).2
  = [None; None; None]
  ∧ da_choice <$> draft_answers
      (update sample_constants rei 100 (QuestionNo 2) (ChoiceNo 3) draft_db).2
    = [Some c11; Some c21; None].
Proof. vm_compute. split; reflexivity. Qed.

(** ** The try limit over the runs of the system *)

Lemma attemptsUsed_same_responses (student : Student) (db db' : DB) :
  responses db' = responses db →
  attemptsUsed student db' = attemptsUsed student db.
Proof. unfold attemptsUsed, Student_response_set. by intros ->. Qed.

Lemma attemptsUsed_same_user (student student' : Student) (db : DB) :
  s_user student = s_user student' →
  attemptsUsed student db = attemptsUsed student' db.
Proof. unfold attemptsUsed, Student_response_set. by intros ->. Qed.

Lemma attemptsUsed_stored (student : Student) (saved : Response) (db db' : DB) :
  responses db' = responses db ++ [saved] →
  attemptsUsed student db'
  = (attemptsUsed student db
     + if decide (s_user (r_student saved) = s_user student) then 1 else 0)%nat.
Proof.
  unfold attemptsUsed, Student_response_set. intros ->.
  rewrite filter_app, length_app, filter_cons, filter_nil.
  destruct (decide _); reflexivity.
Qed.

Lemma within_limit_same_responses (constants : ConstantsNamespace) (db db' : DB) :
  responses db' = responses db →
  within_limit constants db → within_limit constants db'.
Proof.
  intros Heq Hlim student.
  rewrite (attemptsUsed_same_responses student db db' Heq). apply Hlim.
Qed.

(** Finalizing the draft of a student with tries left keeps every student
    within the limit. *)
Lemma finalization_within_limit (constants : ConstantsNamespace)
    (student : Student) (draft : DraftResponse) (submit_at : datetime)
    (db : DB) :
  within_limit constants db →
  Student_draft_response student db = Some draft →
  canStart constants student db = true →
  within_limit constants (FinalizationService_finalize draft submit_at db).2.
Proof.
  intros Hlim Hfound Hok.
  destruct (draft_response_found _ _ _ Hfound) as [Hin Huser].
  destruct (finalization_present draft submit_at db Hin)
    as [saved [db' [-> [_ [Hst [_ [Hresp _]]]]]]].
  cbn [snd]. intros other.
  rewrite (attemptsUsed_stored other saved db db' Hresp).
  specialize (Hlim other). destruct (decide _) as [Hsame|_]; [|lia].
  unfold canStart in Hok. apply bool_decide_eq_true in Hok.
  rewrite (attemptsUsed_same_user student other) in Hok by congruence.
  lia.
Qed.

Lemma auto_finalize_within_limit (constants : ConstantsNamespace)
    (student : Student) (now : datetime) (db : DB) :
  within_limit constants db →
  within_limit constants (auto_finalize constants student now db).2.
Proof.
  intros Hlim. rewrite auto_finalize_run.
  destruct (Student_draft_response student db) as [draft|] eqn:Hfound;
    [|exact Hlim].
  destruct (DraftResponse_outdated now draft); [|exact Hlim].
  destruct (canStart constants student db) eqn:Hok; [|exact Hlim].
  cbn [andb]. by eapply finalization_within_limit.
Qed.

Lemma submit_within_limit (constants : ConstantsNamespace)
    (student : Student) (now : datetime) (db : DB) :
  within_limit constants db →
  within_limit constants (submit constants student now db).2.
Proof.
  intros Hlim. rewrite submit_run.
  destruct (Student_draft_response student db) as [draft|] eqn:Hfound;
    [|exact Hlim].
  destruct (canStart constants student db) eqn:Hok; [|exact Hlim].
  pose proof (finalization_within_limit constants student draft now db
                Hlim Hfound Hok) as Hfin.
  destruct (FinalizationService_finalize draft now db) as [[response|] db'];
    exact Hfin.
Qed.

Lemma apply_update_responses (constants : ConstantsNamespace)
    (student : Student) (now : datetime) (questionId : QuestionId)
    (choiceId : ChoiceId) (db : DB) :
  responses (apply_update constants student now questionId choiceId db).2
  = responses db.
Proof.
  unfold apply_update; run_orm.
  destruct (Student_draft_response student db) as [draft|]; [|reflexivity].
  destruct (DraftResponse_outdated now draft); [reflexivity|].
  destruct (canStart constants student db); [|reflexivity]. cbn [negb].
  destruct questionId as [|qid]; [reflexivity|].
  destruct choiceId as [| |cid]; [reflexivity| |].
  - destruct (bool_decide _); reflexivity.
  - destruct (bool_decide _); [|reflexivity].
    destruct (head _) as [c|]; reflexivity.
Qed.

Lemma update_within_limit (constants : ConstantsNamespace)
    (student : Student) (now : datetime) (questionId : QuestionId)
    (choiceId : ChoiceId) (db : DB) :
  within_limit constants db →
  within_limit constants (update constants student now questionId choiceId db).2.
Proof.
  intros Hlim. rewrite update_run.
  eapply within_limit_same_responses; [apply apply_update_responses|].
  by apply auto_finalize_within_limit.
Qed.

Lemma start_responses (constants : ConstantsNamespace) (student : Student)
    (now : datetime) (rng : list nat) (db : DB) :
  responses (start constants student now rng db).2 = responses db.
Proof.
  unfold start; run_orm.
  destruct (canStart constants student db); [|reflexivity].
  destruct (Student_draft_response student db) as [draft|].
  - destruct (DraftResponse_outdated now draft); reflexivity.
  - destruct (draw _ _ _) as [e|qs]; reflexivity.
Qed.

Lemma get_within_limit (constants : ConstantsNamespace)
    (student : Student) (now : datetime) (db : DB) :
  within_limit constants db →
  within_limit constants (get constants student now db).2.
Proof.
  intros Hlim.
  pose proof (auto_finalize_within_limit constants student now db Hlim) as Hfin.
  unfold get; run_orm.
  destruct (auto_finalize constants student now db) as [done db'].
  cbn [snd] in Hfin.
  destruct (canStart constants student db'); [exact Hfin|].
  destruct (Student_draft_response student db') as [draft|]; [|exact Hfin].
  eapply within_limit_same_responses; [|exact Hfin]. reflexivity.
Qed.

Lemma step_within_limit (constants : ConstantsNamespace) (op : Op) (db : DB) :
  within_limit constants db → within_limit constants (step constants op db).
Proof.
  intros Hlim. destruct op as [s now rng|s now|s now q c|s now|s now]; cbn [step].
  - eapply within_limit_same_responses; [apply start_responses | exact Hlim].
  - by apply get_within_limit.
  - by apply update_within_limit.
  - by apply submit_within_limit.
  - by apply auto_finalize_within_limit.
Qed.

(** C9.  With a try limit that is not negative, in every state the system
    reaches by calls of [start], [get], [update], [submit] and the
    auto-finalization trigger, every student has between 0 and [MAX_TRIES]
    stored responses. *)
Theorem responses_never_exceed_max_tries
    (constants : ConstantsNamespace) (db : DB) (student : Student) :
  0 ≤ MAX_TRIES constants →
  reachable constants db →
  0 ≤ Z.of_nat (attemptsUsed student db) ≤ MAX_TRIES constants.
Proof.
  intros Hmax Hreach. revert student.
  change (within_limit constants db).
  induction Hreach as [db Hr _ _ _|op db _ IH].
  - intros student. unfold attemptsUsed, Student_response_set.
    rewrite Hr, filter_nil. simpl. lia.
  - by apply step_within_limit.
Qed.

Example rei_submitted_once :
  attemptsUsed rei rei_submitted_db = 1%nat
  ∧ draft_responses rei_submitted_db = []
  ∧ r_submit_at <$> responses rei_submitted_db = [60].
Proof. vm_compute. repeat split. Qed.

Lemma responses_never_exceed_max_tries_witness :
  reachable sample_constants rei_submitted_db
  ∧ 0 ≤ Z.of_nat (attemptsUsed rei rei_submitted_db) ≤ 3.
Proof.
  assert (Hreach : reachable sample_constants rei_submitted_db).
  { unfold rei_submitted_db. do 2 apply reachable_step.
    apply reachable_init; reflexivity. }
  split; [exact Hreach|].
  apply (responses_never_exceed_max_tries sample_constants rei_submitted_db rei);
    [simpl; lia | exact Hreach].
Defined.

(** * More properties of the code *)

(** ** [Response.score] on blank, perfect and other responses *)

Lemma foldr_add_le {A} (f g : A → Z) (l : list A) :
  (∀ x, x ∈ l → f x ≤ g x) →
  foldr Z.add 0 (f <$> l) ≤ foldr Z.add 0 (g <$> l).
Proof.
  induction l as [|x l IH]; intros Hfg; csimpl; [lia|].
  assert (f x ≤ g x) by (apply Hfg; left).
  assert (foldr Z.add 0 (f <$> l) ≤ foldr Z.add 0 (g <$> l))
    by (apply IH; intros y Hy; apply Hfg; by right).
  lia.
Qed.

Lemma foldr_add_zero {A} (l : list A) : foldr Z.add 0 ((λ _, 0) <$> l) = 0.
Proof. induction l as [|x l IH]; csimpl; [reflexivity | exact IH]. Qed.

Lemma score_as_sum (constants : ConstantsNamespace) (self : Response) (db : DB) :
  Response_score constants self db
  = foldr Z.add 0
      ((λ p, p.2 * Z.of_nat (length
                (filter (λ a, q_category (a_question a) = p.1
                              ∧ choice__correct a = true)
                        (Response_answer_set self db))))
       <$> SCORE constants).
Proof.
  unfold Response_score. rewrite sum_foldr.
  apply foldr_add_ext. intros [c w] _. reflexivity.
Qed.

(** X3.  A response none of whose answers has a choice marked correct, blank
    answers included, scores 0, whatever the weights. *)
Theorem score_of_blank_response_is_zero
    (constants : ConstantsNamespace) (self : Response) (db : DB) :
  Forall (λ a, choice__correct a = false) (Response_answer_set self db) →
  Response_score constants self db = 0.
Proof.
  intros Hblank. rewrite score_as_sum.
  rewrite (foldr_add_ext _ (λ _, 0)); [apply foldr_add_zero|].
  intros [c w] _. cbn [fst snd].
  assert (filter (λ a, q_category (a_question a) = c ∧ choice__correct a = true)
                 (Response_answer_set self db) = []) as ->; [|simpl; lia].
  induction Hblank as [|a l Ha _ IH]; [reflexivity|].
  rewrite filter_cons_False; [exact IH|]. intros [_ Hc]. congruence.
Qed.

Lemma score_of_blank_response_is_zero_witness :
  Response_score sample_constants asuka_response
    (stored asuka_response asuka_rows scored_db) = 0.
Proof.
  apply score_of_blank_response_is_zero.
  apply (bool_decide_unpack _). vm_compute. exact I.
Defined.

(** X5.  A response all of whose answers have a choice marked correct scores,
    for each category of [SCORE], the weight times the number of its answers
    in that category; when those numbers are the quotas, the score is the
    total of weight times quota. *)
Theorem score_of_perfect_response_is_total
    (constants : ConstantsNamespace) (self : Response) (db : DB) :
  Forall (λ a, choice__correct a = true) (Response_answer_set self db) →
  Response_score constants self db
  = sum ((λ p, p.2 * Z.of_nat (answers_in p.1 (Response_answer_set self db)))
         <$> SCORE constants)
  ∧ ((∀ c, answers_in c (Response_answer_set self db)
           = quota_of (N_QUESTIONS_PER_RESPONSE constants) c) →
     Response_score constants self db
     = sum ((λ p, p.2 * Z.of_nat (quota_of (N_QUESTIONS_PER_RESPONSE constants) p.1))
            <$> SCORE constants)).
Proof.
  intros Hall.
  assert (Hfull : Response_score constants self db
    = sum ((λ p, p.2 * Z.of_nat (answers_in p.1 (Response_answer_set self db)))
           <$> SCORE constants)).
  { rewrite score_as_sum, sum_foldr. apply foldr_add_ext.
    intros [c w] _. cbn [fst snd]. unfold answers_in. f_equal. f_equal. f_equal.
    induction Hall as [|a l Ha _ IH]; [reflexivity|].
    rewrite !filter_cons, IH.
    destruct (decide (q_category (a_question a) = c)) as [Hc|Hc].
    - rewrite decide_True by (split; [exact Hc | exact Ha]). reflexivity.
    - rewrite decide_False by (intros [H _]; exact (Hc H)). reflexivity. }
  split; [exact Hfull|].
  intros Hquota. rewrite Hfull, !sum_foldr. apply foldr_add_ext.
  intros [c w] _. cbn [fst snd]. by rewrite Hquota.
Qed.

Lemma score_of_perfect_response_is_total_witness :
  Response_score sample_constants asuka_response
    (stored asuka_response perfect_rows scored_db) = 25.
Proof.
  assert (Hall : Forall (λ a, choice__correct a = true)
            (Response_answer_set asuka_response
               (stored asuka_response perfect_rows scored_db))).
  { apply (bool_decide_unpack _). vm_compute. exact I. }
  destruct (score_of_perfect_response_is_total sample_constants asuka_response
              (stored asuka_response perfect_rows scored_db) Hall) as [-> _].
  vm_compute. reflexivity.
Defined.

(** X6.  With weights that are not negative, no response scores more than
    the sum over the categories of [SCORE] of the weight times the number
    of its answers in that category. *)
Theorem score_at_most_weight_of_all_answers
    (constants : ConstantsNamespace) (self : Response) (db : DB) :
  Forall (λ p, 0 ≤ p.2) (SCORE constants) →
  Response_score constants self db
  ≤ sum ((λ p, p.2 * Z.of_nat (answers_in p.1 (Response_answer_set self db)))
         <$> SCORE constants).
Proof.
  intros Hpos. rewrite score_as_sum, sum_foldr. apply foldr_add_le.
  intros [c w] Hin. cbn [fst snd].
  rewrite Forall_forall in Hpos. specialize (Hpos _ Hin). cbn [snd] in Hpos.
  apply Z.mul_le_mono_nonneg_l; [exact Hpos|]. apply Nat2Z.inj_le.
  unfold answers_in.
  induction (Response_answer_set self db) as [|a l IH]; [reflexivity|].
  rewrite !filter_cons.
  destruct (decide (q_category (a_question a) = c)) as [Hc|Hc].
  - destruct (decide (_ ∧ _)); simpl; lia.
  - rewrite decide_False by (intros [H _]; exact (Hc H)). exact IH.
Qed.

Lemma score_at_most_weight_of_all_answers_witness :
  Response_score sample_constants rei_response scored_db ≤ 25.
Proof.
  assert (Hpos : Forall (λ p, 0 ≤ p.2) (SCORE sample_constants)).
  { repeat constructor; simpl; lia. }
  pose proof (score_at_most_weight_of_all_answers sample_constants
                rei_response scored_db Hpos) as Hle.
  vm_compute in Hle. vm_compute. exact Hle.
Defined.

(** The answers of a response after rows of other responses are stored. *)
Lemma answer_set_stored (self response : Response) (rows : list Answer)
    (db : DB) :
  Forall (λ a, r_pk (a_response a) ≠ r_pk self) rows →
  Response_answer_set self (stored response rows db)
  = Response_answer_set self db.
Proof.
  intros Hrows. unfold Response_answer_set.
  destruct (r_pk self) as [k|]; [|reflexivity].
  cbn [stored set_answers set_responses answers]. rewrite filter_app.
  assert (filter (λ a, r_pk (a_response a) = Some k) rows = []) as ->.
  { induction Hrows as [|a l Ha _ IH]; [reflexivity|].
    rewrite filter_cons_False; [exact IH | exact Ha]. }
  apply app_nil_r.
Qed.

(** X7.  The score of a response is not touched by what is stored for other
    responses: a further response and answers that belong to other
    responses leave it as it was. *)
Theorem score_ignores_other_responses
    (constants : ConstantsNamespace) (self response : Response)
    (rows : list Answer) (db : DB) :
  Forall (λ a, r_pk (a_response a) ≠ r_pk self) rows →
  Response_score constants self (stored response rows db)
  = Response_score constants self db.
Proof.
  intros Hrows. unfold Response_score.
  rewrite (answer_set_stored self response rows db Hrows). reflexivity.
Qed.

Lemma score_ignores_other_responses_witness :
  Response_score sample_constants rei_response
    (stored asuka_response perfect_rows scored_db) = 20.
Proof.
  rewrite (score_ignores_other_responses sample_constants rei_response
             asuka_response perfect_rows scored_db).
  - vm_compute. reflexivity.
  - apply (bool_decide_unpack _). vm_compute. exact I.
Defined.

(** ** [Student.final_score] *)

Lemma foldr_max_nonneg (l : list Z) : 0 ≤ foldr Z.max 0 l.
Proof. induction l as [|x l IH]; simpl; lia. Qed.

Lemma foldr_max_upper (l : list Z) (x : Z) : x ∈ l → x ≤ foldr Z.max 0 l.
Proof.
  induction l as [|y l IH]; intros Hx; [by apply elem_of_nil in Hx|].
  apply elem_of_cons in Hx. simpl. destruct Hx as [->|Hx]; [lia|].
  specialize (IH Hx). lia.
Qed.

Lemma foldr_max_attained (l : list Z) :
  foldr Z.max 0 l = 0 ∨ foldr Z.max 0 l ∈ l.
Proof.
  induction l as [|y l IH]; [by left|]. simpl.
  destruct (Z.max_spec y (foldr Z.max 0 l)) as [[_ ->]|[_ ->]].
  - destruct IH as [IH|IH]; [by left | right; by right].
  - right. left.
Qed.

Lemma foldr_max_app (l k : list Z) :
  foldr Z.max 0 (l ++ k) = Z.max (foldr Z.max 0 l) (foldr Z.max 0 k).
Proof.
  induction l as [|x l IH]; simpl.
  - pose proof (foldr_max_nonneg k). lia.
  - rewrite IH. lia.
Qed.

(** X1.  [final_score] is the best score: it is not negative, no response of
    the student scores more, and it is 0 or the score of one of the
    student's responses; for a student without responses it is 0. *)
Theorem final_score_is_best_score
    (constants : ConstantsNamespace) (self : Student) (db : DB) :
  0 ≤ Student_final_score constants self db
  ∧ (∀ r, r ∈ Student_response_set self db →
          Response_score constants r db ≤ Student_final_score constants self db)
  ∧ (Student_final_score constants self db = 0
     ∨ ∃ r, r ∈ Student_response_set self db
         ∧ Response_score constants r db = Student_final_score constants self db)
  ∧ (Student_response_set self db = [] →
     Student_final_score constants self db = 0).
Proof.
  unfold Student_final_score. split; [apply foldr_max_nonneg|]. split; [|split].
  - intros r Hr. apply foldr_max_upper.
    apply list_elem_of_fmap. exists r. split; [reflexivity | exact Hr].
  - destruct (foldr_max_attained
                ((λ r, Response_score constants r db)
                 <$> Student_response_set self db)) as [H0|Hin]; [by left|].
    right. apply list_elem_of_fmap in Hin. destruct Hin as [r [Heq Hr]].
    exists r. split; [exact Hr | by rewrite <- Heq].
  - intros ->. reflexivity.
Qed.

(** X4.  A student all of whose responses are blank or wrong throughout has
    the final score 0. *)
Theorem final_score_of_blank_responses_is_zero
    (constants : ConstantsNamespace) (self : Student) (db : DB) :
  (∀ r, r ∈ Student_response_set self db →
        Forall (λ a, choice__correct a = false) (Response_answer_set r db)) →
  Student_final_score constants self db = 0.
Proof.
  intros Hblank. unfold Student_final_score.
  induction (Student_response_set self db) as [|r l IH]; [reflexivity|].
  csimpl. rewrite IH by (intros r' Hr'; apply Hblank; by right).
  rewrite score_as_sum.
  rewrite (foldr_add_ext _ (λ _, 0)); [rewrite foldr_add_zero; reflexivity|].
  intros [c w] _. cbn [fst snd].
  assert (filter (λ a, q_category (a_question a) = c ∧ choice__correct a = true)
                 (Response_answer_set r db) = []) as ->; [|simpl; lia].
  assert (Forall (λ a, choice__correct a = false) (Response_answer_set r db))
    as Hr by (apply Hblank; left).
  induction Hr as [|a l' Ha _ IH']; [reflexivity|].
  rewrite filter_cons_False; [exact IH'|]. intros [_ Hc]. congruence.
Qed.

Lemma final_score_of_blank_responses_is_zero_witness :
  Student_final_score sample_constants asuka
    (stored asuka_response asuka_rows scored_db) = 0.
Proof.
  apply final_score_of_blank_responses_is_zero. intros r Hr.
  assert (r = asuka_response) as ->.
  { vm_compute in Hr. apply elem_of_cons in Hr.
    destruct Hr as [->|Hr]; [reflexivity | by apply elem_of_nil in Hr]. }
  apply (bool_decide_unpack _). vm_compute. exact I.
Defined.

(** X2.  Storing a further response under a key that no stored response has,
    with answers that all belong to it, lowers no student's final score, and
    leaves the final score of every student but its owner as it was. *)
Theorem final_score_never_drops
    (constants : ConstantsNamespace) (student : Student) (response : Response)
    (rows : list Answer) (k : pk) (db : DB) :
  r_pk response = Some k →
  Some k ∉ r_pk <$> responses db →
  Forall (λ a, r_pk (a_response a) = Some k) rows →
  Student_final_score constants student db
  ≤ Student_final_score constants student (stored response rows db)
  ∧ (s_user (r_student response) ≠ s_user student →
     Student_final_score constants student (stored response rows db)
     = Student_final_score constants student db).
Proof.
  intros Hk Hfresh Hrows.
  assert (Hold : ∀ r, r ∈ responses db →
            Response_score constants r (stored response rows db)
            = Response_score constants r db).
  { intros r Hr. unfold Response_score. rewrite answer_set_stored; [reflexivity|].
    eapply Forall_impl; [exact Hrows|]. intros a Ha. cbn beta in *. rewrite Ha.
    intros Heq. apply Hfresh. rewrite Heq. by apply list_elem_of_fmap_2. }
  assert (Hsame : foldr Z.max 0
            ((λ r, Response_score constants r (stored response rows db))
             <$> Student_response_set student db)
          = Student_final_score constants student db).
  { unfold Student_final_score. f_equal. apply list_fmap_ext.
    intros i r Hr. apply Hold. apply list_elem_of_lookup_2 in Hr.
    apply list_elem_of_filter in Hr. tauto. }
  unfold Student_final_score at 2 3, Student_response_set at 1 2.
  cbn [stored set_answers set_responses responses].
  rewrite filter_app, filter_cons, filter_nil.
  fold (Student_response_set student db).
  destruct (decide (s_user (r_student response) = s_user student)) as [Hown|Hother].
  - rewrite fmap_app, foldr_max_app, Hsame. split; [lia | contradiction].
  - rewrite app_nil_r, Hsame. split; [lia | reflexivity].
Qed.

Lemma final_score_never_drops_witness :
  Student_final_score sample_constants rei scored_db
  ≤ Student_final_score sample_constants rei
      (stored asuka_response perfect_rows scored_db)
  ∧ Student_final_score sample_constants asuka scored_db
    ≤ Student_final_score sample_constants asuka
        (stored asuka_response perfect_rows scored_db).
Proof.
  assert (Hfresh : Some 2 ∉ r_pk <$> responses scored_db).
  { apply (bool_decide_unpack _). vm_compute. exact I. }
  assert (Hrows : Forall (λ a, r_pk (a_response a) = Some 2) perfect_rows).
  { apply (bool_decide_unpack _). vm_compute. exact I. }
  split.
  - apply (final_score_never_drops sample_constants rei asuka_response
             perfect_rows 2 scored_db eq_refl Hfresh Hrows).
  - apply (final_score_never_drops sample_constants asuka asuka_response
             perfect_rows 2 scored_db eq_refl Hfresh Hrows).
Defined.

(** ** [Student.n_left_tries] and [DraftResponse.outdated] *)

(** X8.  A further stored response takes exactly one try from its owner and
    none from any other student.  The tries left never exceed [MAX_TRIES],
    and the count is not clamped: it is negative exactly when the student
    has more stored responses than [MAX_TRIES]. *)
Theorem n_left_tries_drops_by_one_per_response
    (constants : ConstantsNamespace) (student : Student) (response : Response)
    (rows : list Answer) (db : DB) :
  Student_n_left_tries constants student (stored response rows db)
  = Student_n_left_tries constants student db
    - (if decide (s_user (r_student response) = s_user student) then 1 else 0)
  ∧ Student_n_left_tries constants student db ≤ MAX_TRIES constants
  ∧ (Student_n_left_tries constants student db < 0
     ↔ MAX_TRIES constants < Z.of_nat (length (Student_response_set student db))).
Proof.
  unfold Student_n_left_tries. split; [|split; lia].
  unfold Student_response_set at 1.
  cbn [stored set_answers set_responses responses].
  rewrite filter_app, length_app, filter_cons, filter_nil.
  fold (Student_response_set student db).
  destruct (decide _); simpl; lia.
Qed.

(** X9.  Expiry is monotone: a draft that is outdated at one instant is
    outdated at every later one, and a draft that is outdated is still
    outdated when its deadline is any earlier. *)
Theorem outdated_is_monotone
    (now later : datetime) (draft earlier : DraftResponse) :
  now ≤ later →
  d_deadline earlier ≤ d_deadline draft →
  DraftResponse_outdated now draft = true →
  DraftResponse_outdated later draft = true
  ∧ DraftResponse_outdated now earlier = true.
Proof.
  unfold DraftResponse_outdated. rewrite !Z.gtb_lt. lia.
Qed.

Lemma outdated_is_monotone_witness :
  DraftResponse_outdated 250 rei_draft = true
  ∧ DraftResponse_outdated 101
      {| d_pk := 1; d_student := rei; d_deadline := 99 |} = true.
Proof.
  apply (outdated_is_monotone 101 250 rei_draft
           {| d_pk := 1; d_student := rei; d_deadline := 99 |});
    [simpl; lia | simpl; lia | reflexivity].
Defined.

(** ** [current_page_title] and the request *)

(** X10.  The tag raises exactly when the context holds no request, and
    then it raises [KeyError] for the key [request], whatever else the
    context holds; with a request it always returns a title. *)
Theorem current_page_title_raises_iff_no_request
    (resolve : string -> option string) (context : Context) (default : string) :
  ((∃ e, current_page_title resolve context default = inl e)
   ↔ ctx_request context = None)
  ∧ (∀ e, current_page_title resolve context default = inl e →
          e = KeyError "request")
  ∧ (is_Some (ctx_request context) →
     ∃ title, current_page_title resolve context default = inr title).
Proof.
  unfold current_page_title.
  destruct (ctx_request context) as [request|].
  - destruct (ctx_constants context) as [constants|];
      [destruct (resolve (path_info request)) as [view_name|];
       [destruct (ROUTES constants !! view_name) as [page|]|]|];
      destruct (ctx_response_status context) as [status|];
      (split; [split; [intros [e He]; discriminate He | discriminate]|]);
      (split; [intros e He; discriminate He | eauto]).
  - split; [|split].
    + split; [reflexivity | eauto].
    + intros e [= <-]. reflexivity.
    + intros [x Hx]. discriminate Hx.
Qed.

(** ** [Question.check] *)

Lemma difference_empty_iff (l k : list string) :
  (list_to_set l ∖ list_to_set k : gset string) = ∅ ↔ ∀ c, c ∈ l → c ∈ k.
Proof.
  split.
  - intros Hempty c Hc. destruct (decide (c ∈ k)) as [Hk|Hk]; [exact Hk|].
    exfalso. assert (c ∈ (list_to_set l ∖ list_to_set k : gset string)) as Hin.
    { apply elem_of_difference. rewrite !elem_of_list_to_set. tauto. }
    rewrite Hempty in Hin. by apply not_elem_of_empty in Hin.
  - intros Hsub. apply set_eq. intros c.
    rewrite elem_of_difference, !elem_of_list_to_set.
    split; [intros [Hc Hk]; exfalso; auto | intros Hc; by apply not_elem_of_empty in Hc].
Qed.

Lemma app_cons_not_self {A} (l k : list A) (x : A) : l ++ x :: k ≠ l.
Proof.
  intros Heq. apply (f_equal length) in Heq.
  rewrite length_app in Heq. simpl in Heq. lia.
Qed.

(** X11.  The check adds no error exactly when every key of
    [N_QUESTIONS_PER_RESPONSE] is a category and every category is a key of
    [SCORE].  A configuration that passes gives every category with a quota a
    score in [SCORE]. *)
Theorem check_passes_iff_keys_consistent
    (constants : ConstantsNamespace) (inherited : list CheckMessage) :
  (Question_check constants inherited = inherited
   ↔ (∀ c, c ∈ (N_QUESTIONS_PER_RESPONSE constants).*1 → c ∈ Category_values)
     ∧ (∀ c, c ∈ Category_values → c ∈ (SCORE constants).*1))
  ∧ (Question_check constants inherited = inherited →
     ∀ c n, (c, n) ∈ N_QUESTIONS_PER_RESPONSE constants →
            ∃ w, (c, w) ∈ SCORE constants).
Proof.
  assert (Hiff : Question_check constants inherited = inherited
   ↔ (∀ c, c ∈ (N_QUESTIONS_PER_RESPONSE constants).*1 → c ∈ Category_values)
     ∧ (∀ c, c ∈ Category_values → c ∈ (SCORE constants).*1)).
  { rewrite <- !difference_empty_iff. unfold Question_check. cbv zeta.
    destruct (decide (_ ∖ _ ≠ ∅)) as [Hn|Hn];
      destruct (decide (_ ∖ _ ≠ ∅)) as [Hs|Hs].
    - split; [|tauto]. rewrite <- assoc by apply _.
      intros Heq. by apply app_cons_not_self in Heq.
    - split; [|tauto]. intros Heq. by apply app_cons_not_self in Heq.
    - split; [|tauto]. intros Heq. by apply app_cons_not_self in Heq.
    - split; [|reflexivity]. intros _.
      split; [by apply dec_stable | by apply dec_stable]. }
  split; [exact Hiff|].
  intros Hclean c n Hin. apply Hiff in Hclean. destruct Hclean as [Hn Hs].
  assert (c ∈ (SCORE constants).*1) as Hc.
  { apply Hs, Hn. apply list_elem_of_fmap. exists (c, n). split; [reflexivity | exact Hin]. }
  apply list_elem_of_fmap in Hc. destruct Hc as [[c' w] [-> Hc]].
  exists w. exact Hc.
Qed.

Lemma check_passes_iff_keys_consistent_witness :
  Question_check sample_constants [] = []
  ∧ ∃ w, (BINARY, w) ∈ SCORE sample_constants.
Proof.
  assert (Hclean : Question_check sample_constants [] = []).
  { vm_compute. reflexivity. }
  split; [exact Hclean|].
  destruct (check_passes_iff_keys_consistent sample_constants []) as [_ Hscored].
  apply (Hscored Hclean BINARY 1%nat). right. left.
Defined.

(** X12.  The check returns the inherited messages first and unchanged, and
    after them at most two errors of its own.  An error on the quota keys is
    there exactly when some key is not a category, and it lists exactly
    those keys; an error on the score keys is there exactly when some
    category has no key in [SCORE], and it lists exactly those categories. *)
Theorem check_reports_exactly_the_broken_keys
    (constants : ConstantsNamespace) (inherited : list CheckMessage) :
  ∃ added,
    Question_check constants inherited = inherited ++ added
    ∧ (length added ≤ 2)%nat
    ∧ (∀ id, InheritedMessage id ∉ added)
    ∧ (∀ broken, BrokenNQuestionsKeys broken ∈ added →
         ∀ c, c ∈ broken
              ↔ c ∈ (N_QUESTIONS_PER_RESPONSE constants).*1 ∧ c ∉ Category_values)
    ∧ (∀ broken, BrokenScoreKeys broken ∈ added →
         ∀ c, c ∈ broken ↔ c ∈ Category_values ∧ c ∉ (SCORE constants).*1)
    ∧ ((∃ c, c ∈ (N_QUESTIONS_PER_RESPONSE constants).*1 ∧ c ∉ Category_values)
       ↔ ∃ broken, BrokenNQuestionsKeys broken ∈ added)
    ∧ ((∃ c, c ∈ Category_values ∧ c ∉ (SCORE constants).*1)
       ↔ ∃ broken, BrokenScoreKeys broken ∈ added).
Proof.
  set (bn := (list_to_set (N_QUESTIONS_PER_RESPONSE constants).*1
              ∖ list_to_set Category_values : gset string)).
  set (bs := (list_to_set Category_values
              ∖ list_to_set (SCORE constants).*1 : gset string)).
  assert (Hbn : ∀ c, c ∈ bn
            ↔ c ∈ (N_QUESTIONS_PER_RESPONSE constants).*1 ∧ c ∉ Category_values).
  { intros c. unfold bn. rewrite elem_of_difference, !elem_of_list_to_set. tauto. }
  assert (Hbs : ∀ c, c ∈ bs ↔ c ∈ Category_values ∧ c ∉ (SCORE constants).*1).
  { intros c. unfold bs. rewrite elem_of_difference, !elem_of_list_to_set. tauto. }
  assert (Hne : ∀ (X : gset string), X ≠ ∅ ↔ ∃ c, c ∈ X).
  { intros X. split.
    - intros HX. apply set_choose_L in HX. exact HX.
    - intros [c Hc] ->. by apply not_elem_of_empty in Hc. }
  exists ((if decide (bn ≠ ∅) then [BrokenNQuestionsKeys bn] else [])
          ++ (if decide (bs ≠ ∅) then [BrokenScoreKeys bs] else [])).
  split.
  { unfold Question_check. cbv zeta. fold bn bs.
    destruct (decide (bn ≠ ∅)), (decide (bs ≠ ∅)); simpl;
      rewrite <- ?(assoc (++)), ?app_nil_r; reflexivity. }
  split; [destruct (decide (bn ≠ ∅)), (decide (bs ≠ ∅)); simpl; lia|].
  split.
  { intros id Hin. apply elem_of_app in Hin.
    destruct (decide (bn ≠ ∅)), (decide (bs ≠ ∅)), Hin as [Hin|Hin];
      repeat (apply elem_of_cons in Hin; destruct Hin as [Hin|Hin];
              [discriminate Hin|]);
      by apply elem_of_nil in Hin. }
  assert (HinN : ∀ broken,
            BrokenNQuestionsKeys broken
            ∈ (if decide (bn ≠ ∅) then [BrokenNQuestionsKeys bn] else [])
              ++ (if decide (bs ≠ ∅) then [BrokenScoreKeys bs] else [])
            ↔ bn ≠ ∅ ∧ broken = bn).
  { intros broken. rewrite elem_of_app.
    destruct (decide (bn ≠ ∅)), (decide (bs ≠ ∅));
      rewrite ?list_elem_of_singleton, ?elem_of_nil; split;
      try (intros [H|H]; try discriminate H; try contradiction;
           injection H as ->; tauto);
      try (intros [H ->]; tauto); tauto. }
  assert (HinS : ∀ broken,
            BrokenScoreKeys broken
            ∈ (if decide (bn ≠ ∅) then [BrokenNQuestionsKeys bn] else [])
              ++ (if decide (bs ≠ ∅) then [BrokenScoreKeys bs] else [])
            ↔ bs ≠ ∅ ∧ broken = bs).
  { intros broken. rewrite elem_of_app.
    destruct (decide (bn ≠ ∅)), (decide (bs ≠ ∅));
      rewrite ?list_elem_of_singleton, ?elem_of_nil; split;
      try (intros [H|H]; try discriminate H; try contradiction;
           injection H as ->; tauto);
      try (intros [H ->]; tauto); tauto. }
  split; [intros broken Hin; apply HinN in Hin; destruct Hin as [_ ->]; exact Hbn|].
  split; [intros broken Hin; apply HinS in Hin; destruct Hin as [_ ->]; exact Hbs|].
  split.
  - split.
    + intros [c Hc]. exists bn. apply HinN. split; [|reflexivity].
      apply Hne. exists c. by apply Hbn.
    + intros [broken Hin]. apply HinN in Hin. destruct Hin as [Hin _].
      apply Hne in Hin. destruct Hin as [c Hc]. exists c. by apply Hbn.
  - split.
    + intros [c Hc]. exists bs. apply HinS. split; [|reflexivity].
      apply Hne. exists c. by apply Hbs.
    + intros [broken Hin]. apply HinS in Hin. destruct Hin as [Hin _].
      apply Hne in Hin. destruct Hin as [c Hc]. exists c. by apply Hbs.
Qed.

Example check_of_broken_constants :
  Question_check broken_constants [InheritedMessage "models.E001"]
  = [InheritedMessage "models.E001"; BrokenNQuestionsKeys {[ "M" ]};
     BrokenScoreKeys {[ "B" ]}].
Proof.
  unfold Question_check. cbv zeta.
  assert ((list_to_set (N_QUESTIONS_PER_RESPONSE broken_constants).*1
           ∖ list_to_set Category_values : gset string) = {[ "M" ]}) as ->.
  { apply (bool_decide_unpack _). vm_compute. exact I. }
  assert ((list_to_set Category_values
           ∖ list_to_set (SCORE broken_constants).*1 : gset string) = {[ "B" ]}) as ->.
  { apply (bool_decide_unpack _). vm_compute. exact I. }
  rewrite !decide_True; [reflexivity | |];
    intros Heq; apply (f_equal (λ X : gset string, size X)) in Heq;
    vm_compute in Heq; discriminate Heq.
Qed.

(** ** Display strings *)

Lemma category_label_none (value : string) :
  Category_label value = None ↔ value ∉ Category_values.
Proof.
  unfold Category_label, Category_values.
  rewrite !not_elem_of_cons.
  destruct (decide (value = RADIO)) as [->|Hr].
  - split; [discriminate | intros [H _]; by destruct H].
  - destruct (decide (value = BINARY)) as [->|Hb].
    + split; [discriminate | intros [_ [H _]]; by destruct H].
    + split; [|reflexivity]. intros _.
      split; [exact Hr | split; [exact Hb | apply not_elem_of_nil]].
Qed.

(** X13.  [Question.__str__] raises exactly when the category of the
    question is not one of the values of [Question.Category]; for the two
    values it gives the content followed by the label in full-width
    brackets. *)
Theorem question_str_raises_iff_unknown_category (self : Question) :
  (Question_str self = None ↔ q_category self ∉ Category_values)
  ∧ (q_category self = RADIO →
     Question_str self = Some (q_content self +:+ "（单项选择）"))
  ∧ (q_category self = BINARY →
     Question_str self = Some (q_content self +:+ "（判断）")).
Proof.
  unfold Question_str. split; [|split].
  - rewrite <- category_label_none.
    destruct (Category_label (q_category self)); simpl;
      split; (discriminate || reflexivity).
  - intros ->. reflexivity.
  - intros ->. reflexivity.
Qed.

Example question_without_category_has_no_str :
  Question_str q_blank = None
  ∧ Question_str q3 = Some "Angels（判断）".
Proof. vm_compute. split; reflexivity. Qed.

(** X14.  [Answer.__str__] raises exactly when [Question.__str__] does on
    its question; a missing choice never makes it raise and is shown as
    [None]. *)
Theorem answer_str_raises_iff_question_str_does (self : Answer) :
  (Answer_str self = None ↔ q_category (a_question self) ∉ Category_values)
  ∧ (∀ question,
       Question_str (a_question self) = Some question →
       a_choice self = None →
       Answer_str self = Some ("“" +:+ question +:+ "” → “None”"))
  ∧ (∀ question c,
       Question_str (a_question self) = Some question →
       a_choice self = Some c →
       Answer_str self
       = Some ("“" +:+ question +:+ "” → “" +:+ c_content c +:+ "”")).
Proof.
  unfold Answer_str. split; [|split].
  - rewrite <- category_label_none. unfold Question_str.
    destruct (Category_label (q_category (a_question self))); simpl;
      split; (discriminate || reflexivity).
  - intros question -> ->. reflexivity.
  - intros question c -> ->. reflexivity.
Qed.

(** ** [DraftResponse.finalize] among other drafts, and its output stored *)

(** X15.  [finalize] reads the draft answers of its own draft only: whatever
    the table of drafts holds, and whatever draft answers of other drafts
    are stored besides, it returns the same response and the same answers. *)
Theorem finalize_ignores_other_drafts
    (self : DraftResponse) (submit_at : datetime)
    (drafts : list DraftResponse) (rows : list DraftAnswer) (db : DB) :
  Forall (λ a, d_pk (da_response a) ≠ d_pk self) rows →
  (DraftResponse_finalize self submit_at
     (set_drafts drafts (draft_answers db ++ rows) db)).1
  = (DraftResponse_finalize self submit_at db).1.
Proof.
  intros Hrows. rewrite !finalize_run. cbn [fst]. f_equal. f_equal.
  unfold DraftResponse_answer_set. cbn [set_drafts draft_answers].
  rewrite filter_app.
  assert (filter (λ a, d_pk (da_response a) = d_pk self) rows = []) as ->.
  { induction Hrows as [|a l Ha _ IH]; [reflexivity|].
    rewrite filter_cons_False; [exact IH | exact Ha]. }
  apply app_nil_r.
Qed.

Lemma finalize_ignores_other_drafts_witness :
  (DraftResponse_finalize rei_draft 60
     (set_drafts []
        (draft_answers draft_db
         ++ [ {| da_pk := Some 7;
                 da_response := {| d_pk := 2; d_student := asuka; d_deadline := 90 |};
                 da_question := q1; da_choice := Some c12 |} ])
        draft_db)).1
  = (DraftResponse_finalize rei_draft 60 draft_db).1.
Proof.
  apply finalize_ignores_other_drafts.
  apply (bool_decide_unpack _). vm_compute. exact I.
Defined.

Lemma next_pk_fresh (used : list pk) (k : pk) : k ∈ used → k < next_pk used.
Proof.
  unfold next_pk. induction used as [|x used IH]; intros Hk.
  - by apply elem_of_nil in Hk.
  - apply elem_of_cons in Hk. simpl. destruct Hk as [->|Hk]; [lia|].
    specialize (IH Hk). lia.
Qed.

Lemma filter_length_Forall2 {A B} (R : A → B → Prop) (P : A → Prop)
    (Q : B → Prop) `{∀ x, Decision (P x)} `{∀ y, Decision (Q y)}
    (l : list A) (k : list B) :
  (∀ x y, R x y → (P x ↔ Q y)) →
  Forall2 R l k →
  length (filter P l) = length (filter Q k).
Proof.
  intros HPQ Hlk. induction Hlk as [|x y l k Hxy _ IH]; [reflexivity|].
  rewrite !filter_cons. specialize (HPQ x y Hxy).
  destruct (decide (P x)), (decide (Q y)); simpl; tauto || lia.
Qed.

Lemma finalize_and_store_run (self : DraftResponse) (submit_at : datetime)
    (db : DB) :
  ∃ saved rows,
    finalize_and_store self submit_at db = (saved, stored saved rows db)
    ∧ saved = {| r_pk := Some (next_pk (omap r_pk (responses db)));
                 r_submit_at := submit_at;
                 r_student := d_student self |}
    ∧ Forall2 (λ d a, a_question a = da_question d
                      ∧ a_choice a = da_choice d
                      ∧ a_response a = saved)
              (DraftResponse_answer_set self db) rows.
Proof.
  unfold finalize_and_store; run_orm. rewrite finalize_run.
  cbn -[next_pk imap filter DraftResponse_answer_set].
  eexists _, _. split; [reflexivity|]. split; [reflexivity|].
  apply bulk_rows_copy.
Qed.

(** X16.  When every stored answer belongs to a stored response, saving the
    response that [finalize] returns and bulk-creating its answers, as the
    docstring asks of the caller, stores a response of the draft's student
    with the given timestamp whose score is, for each category of [SCORE],
    the weight times the number of the draft's answers in that category
    with a choice marked correct; the draft and its answers are still
    stored. *)
Theorem stored_finalized_draft_scores_its_choices
    (constants : ConstantsNamespace) (self : DraftResponse)
    (submit_at : datetime) (db : DB) :
  (∀ a, a ∈ answers db → r_pk (a_response a) ∈ r_pk <$> responses db) →
  ∃ saved db',
    finalize_and_store self submit_at db = (saved, db')
    ∧ saved ∈ responses db'
    ∧ r_student saved = d_student self
    ∧ r_submit_at saved = submit_at
    ∧ draft_responses db' = draft_responses db
    ∧ draft_answers db' = draft_answers db
    ∧ Response_score constants saved db'
      = sum ((λ p, p.2 * Z.of_nat (length
                 (filter (λ d, q_category (da_question d) = p.1
                               ∧ draft_choice__correct d = true)
                         (DraftResponse_answer_set self db))))
             <$> SCORE constants).
Proof.
  intros Hrefs.
  destruct (finalize_and_store_run self submit_at db)
    as [saved [rows [Hrun [Hsaved Hrows]]]].
  exists saved, (stored saved rows db). split; [exact Hrun|].
  split; [cbn; apply elem_of_app; right; left|].
  split; [by rewrite Hsaved|]. split; [by rewrite Hsaved|].
  split; [reflexivity|]. split; [reflexivity|].
  assert (Hset : Response_answer_set saved (stored saved rows db) = rows).
  { unfold Response_answer_set.
    rewrite Hsaved at 1. cbn [r_pk stored set_answers set_responses answers].
    rewrite filter_app.
    assert (filter (λ a, r_pk (a_response a)
                         = Some (next_pk (omap r_pk (responses db))))
                   (answers db) = []) as ->.
    { assert (Hall : Forall (λ a, a ∈ answers db) (answers db))
        by (apply Forall_forall; auto).
      induction Hall as [|a l Ha _ IH]; [reflexivity|].
      rewrite filter_cons_False; [exact IH|]. intros Hk.
      specialize (Hrefs a Ha). rewrite Hk in Hrefs.
      apply list_elem_of_fmap in Hrefs. destruct Hrefs as [r [Hr Hin]].
      assert (next_pk (omap r_pk (responses db)) ∈ omap r_pk (responses db)) as Hmem.
      { apply list_elem_of_omap. exists r. split; [exact Hin | by rewrite Hr]. }
      apply next_pk_fresh in Hmem. lia. }
    cbn [app].
    assert (Hmine : Forall (λ a, r_pk (a_response a)
                                 = Some (next_pk (omap r_pk (responses db)))) rows).
    { clear -Hrows Hsaved.
      induction Hrows as [|d a l k [_ [_ Ha]] _ IH]; constructor; [|exact IH].
      by rewrite Ha, Hsaved. }
    clear -Hmine. induction Hmine as [|a l Ha _ IH]; [reflexivity|].
    rewrite filter_cons_True by exact Ha. by rewrite IH. }
  rewrite score_as_sum, sum_foldr, Hset. apply foldr_add_ext.
  intros [c w] _. cbn [fst snd]. f_equal. f_equal. symmetry.
  eapply filter_length_Forall2; [|exact Hrows].
  intros d a [Hq [Hc _]]. cbn beta.
  unfold choice__correct, draft_choice__correct. by rewrite Hq, Hc.
Qed.

Lemma stored_finalized_draft_scores_its_choices_witness :
  ∃ saved db',
    finalize_and_store rei_draft 60 draft_db = (saved, db')
    ∧ Response_score sample_constants saved db' = 10.
Proof.
  assert (Hrefs : ∀ a, a ∈ answers draft_db →
                       r_pk (a_response a) ∈ r_pk <$> responses draft_db).
  { intros a Ha. vm_compute in Ha. by apply elem_of_nil in Ha. }
  destruct (stored_finalized_draft_scores_its_choices sample_constants
              rei_draft 60 draft_db Hrefs)
    as [saved [db' [Hrun [_ [_ [_ [_ [_ Hscore]]]]]]]].
  exists saved, db'. split; [exact Hrun|].
  rewrite Hscore. vm_compute. reflexivity.
Defined.
